(** * Clash of Commands: the game engine of [game.py], embedded and verified

    The engine of the CLI prototype is embedded shallowly: Python [int]s are
    [Z], lists are [list], the [zones] dictionary is a [gmap] keyed by
    [ZoneId], and every method of [Game] becomes a function that takes the
    game (and, where the method shuffles, the state of the random source) and
    returns the mutated game.  In the engine a Python exception ([KeyError]
    on a missing dictionary key) is the result [None].  The console code
    ([print_board], [print_hand], [play_one_turn], [main]) reads the lines
    of standard input from a list, appends what it writes to a list that
    takes every string, and returns the exception it was left by, if any,
    together with the state it had come to. *)

From stdpp Require Import base option list gmap strings pretty.
From Stdlib Require Import ZArith Lia.

Local Open Scope Z_scope.

(** ** Core enums *)

Inductive CardKind := TROOP | STRATEGEM | AMBUSH.

Inductive ZoneId := LEFT | CENTER | RIGHT | RESERVE | HQ | SUPPLY.

#[global] Instance CardKind_eq_dec : EqDecision CardKind.
Proof. solve_decision. Defined.

#[global] Instance ZoneId_eq_dec : EqDecision ZoneId.
Proof. solve_decision. Defined.

Definition ZoneId_to_nat (z : ZoneId) : nat :=
  match z with
  | LEFT => 0 | CENTER => 1 | RIGHT => 2 | RESERVE => 3 | HQ => 4 | SUPPLY => 5
  end%nat.

Definition ZoneId_of_nat (n : nat) : option ZoneId :=
  match n with
  | 0 => Some LEFT | 1 => Some CENTER | 2 => Some RIGHT | 3 => Some RESERVE
  | 4 => Some HQ | 5 => Some SUPPLY | _ => None
  end%nat.

#[global] Instance ZoneId_countable : Countable ZoneId.
Proof.
  refine (inj_countable ZoneId_to_nat ZoneId_of_nat _).
  intros z; destruct z; reflexivity.
Defined.

(** ** Data models

    One module per dataclass, so that the fields keep their Python names
    ([TroopStats.coh] and [Unit.coh] are different fields). *)

Module TroopStats.
Record t := mk { str : Z; arm : Z; coh : Z; speed : Z; max_ammo : Z }.
End TroopStats.

(** [Card] is a concrete dataclass with three subclasses; each subclass
    overwrites [kind] in [__post_init__], so only a plain [Card] carries a
    free [kind].  [isinstance(card, TroopCard)] is a match on the constructor
    [IsTroopCard] below. *)

Module Card.
Record t := mk { id : string; name : string; kind : CardKind; text : string }.
End Card.

Module TroopCard.
Record t := mk { id : string; name : string; text : string; stats : TroopStats.t }.
Definition kind (_ : t) : CardKind := TROOP.
End TroopCard.

Module StrategemCard.
Record t := mk { id : string; name : string; text : string; cost_cp : Z }.
Definition kind (_ : t) : CardKind := STRATEGEM.
End StrategemCard.

Module AmbushCard.
Record t := mk { id : string; name : string; text : string; cost_cp : Z; trigger : string }.
Definition kind (_ : t) : CardKind := AMBUSH.
End AmbushCard.

(** What a [List[Card]] can hold: an instance of [Card] or of a subclass. *)
Inductive card :=
| IsCard (c : Card.t)
| IsTroopCard (c : TroopCard.t)
| IsStrategemCard (c : StrategemCard.t)
| IsAmbushCard (c : AmbushCard.t).

Definition card_kind (c : card) : CardKind :=
  match c with
  | IsCard b => Card.kind b
  | IsTroopCard t => TroopCard.kind t
  | IsStrategemCard s => StrategemCard.kind s
  | IsAmbushCard a => AmbushCard.kind a
  end.

Module Unit.
Record t := mk {
  card : TroopCard.t;
  owner : Z;
  zone : ZoneId;
  coh : Z;
  ammo : Z;
  attacked_this_turn : bool
}.

Definition name (u : t) : string := TroopCard.name (card u).
Definition STR (u : t) : Z := TroopStats.str (TroopCard.stats (card u)).
Definition ARM (u : t) : Z := TroopStats.arm (TroopCard.stats (card u)).
Definition is_alive (u : t) : bool := 0 <? coh u.

Definition set_attacked_this_turn (b : bool) (u : t) : t :=
  mk (card u) (owner u) (zone u) (coh u) (ammo u) b.
End Unit.

Module Zone.
Record t := mk { id : ZoneId; capacity : Z; units : list Unit.t }.

Definition has_space (z : t) : bool := Z.of_nat (length (units z)) <? capacity z.

Definition set_units (us : list Unit.t) (z : t) : t := mk (id z) (capacity z) us.
End Zone.

Module PlayerState.
Record t := mk {
  pid : Z;
  morale : Z;
  cp : Z;
  deck : list card;
  hand : list card;
  discard : list card
}.

(** [PlayerState(pid=n)]: the defaults of the dataclass. *)
Definition new (n : Z) : t := mk n 25 0 [] [] [].

Definition set_cp (v : Z) (p : t) : t :=
  mk (pid p) (morale p) v (deck p) (hand p) (discard p).
Definition set_deck (d : list card) (p : t) : t :=
  mk (pid p) (morale p) (cp p) d (hand p) (discard p).
Definition set_hand (h : list card) (p : t) : t :=
  mk (pid p) (morale p) (cp p) (deck p) h (discard p).
Definition set_discard (d : list card) (p : t) : t :=
  mk (pid p) (morale p) (cp p) (deck p) (hand p) d.
End PlayerState.

(** The attributes of a [Game] instance. *)
Record Game := mkGame {
  turn : Z;
  active_pid : Z;
  zones : gmap ZoneId Zone.t;
  adj : gmap ZoneId (list ZoneId);
  p1 : PlayerState.t;
  p2 : PlayerState.t
}.

Definition set_turn (v : Z) (g : Game) : Game :=
  mkGame v (active_pid g) (zones g) (adj g) (p1 g) (p2 g).
Definition set_active_pid (v : Z) (g : Game) : Game :=
  mkGame (turn g) v (zones g) (adj g) (p1 g) (p2 g).
Definition set_zones (zs : gmap ZoneId Zone.t) (g : Game) : Game :=
  mkGame (turn g) (active_pid g) zs (adj g) (p1 g) (p2 g).

(** A method argument [p : PlayerState] is a reference to one of the two
    player objects the game owns; mutating [p] mutates the game.  [PlayerRef]
    says which attribute the reference aliases. *)
Inductive PlayerRef := P1 | P2.

Definition deref (g : Game) (p : PlayerRef) : PlayerState.t :=
  match p with P1 => p1 g | P2 => p2 g end.

Definition assign (p : PlayerRef) (s : PlayerState.t) (g : Game) : Game :=
  match p with
  | P1 => mkGame (turn g) (active_pid g) (zones g) (adj g) s (p2 g)
  | P2 => mkGame (turn g) (active_pid g) (zones g) (adj g) (p1 g) s
  end.

Definition the_other (p : PlayerRef) : PlayerRef :=
  match p with P1 => P2 | P2 => P1 end.

(** [list.pop()]: the last element and the list without it; [None] on the
    empty list (the engine only pops after testing that the list is not
    empty). *)
Fixpoint pop (l : list card) : option (list card * card) :=
  match l with
  | [] => None
  | c :: l' =>
      match pop l' with
      | None => Some ([], c)
      | Some (front, top) => Some (c :: front, top)
      end
  end.

(** ** The card catalog of [_init_sample_decks] *)

Definition marines : card := IsTroopCard (TroopCard.mk
  "troop_marines" "Tactical Marines"
  "+1 STR if another Infantry is in zone (not implemented yet)."
  (TroopStats.mk 6 4 6 1 0)).

Definition scouts : card := IsTroopCard (TroopCard.mk
  "troop_scouts" "Scouts"
  "Ranged unit (ammo 2, range 1 later)."
  (TroopStats.mk 4 2 4 1 2)).

Definition cavalry : card := IsTroopCard (TroopCard.mk
  "troop_cavalry" "Assault Cavalry"
  "Fast movers."
  (TroopStats.mk 5 3 5 2 0)).

Definition heavy : card := IsTroopCard (TroopCard.mk
  "troop_heavy" "Heavy Weapons Team"
  "Artillery-ish (ammo 2 later)."
  (TroopStats.mk 7 2 4 1 2)).

Definition elite : card := IsTroopCard (TroopCard.mk
  "troop_elite" "Elite Veterans"
  "Hard hitters."
  (TroopStats.mk 7 4 6 1 0)).

Definition suppression : card := IsStrategemCard (StrategemCard.mk
  "strat_suppression" "Suppressive Fire"
  "Choose a zone; enemy can't move next turn (not implemented yet)."
  2).

Definition march : card := IsStrategemCard (StrategemCard.mk
  "strat_march" "Forced March"
  "One troop gets +1 move this turn (not implemented yet)."
  1).

Definition dig_in : card := IsStrategemCard (StrategemCard.mk
  "strat_dig_in" "Dig In"
  "Target zone gets +1 ARM for your troops this turn (not implemented yet)."
  1).

Definition killzone : card := IsAmbushCard (AmbushCard.mk
  "amb_killzone" "Prepared Killzone"
  "When enemy enters zone: deal 3 damage to one troop (not implemented yet)."
  1 "ON_ENTER").

Definition booby : card := IsAmbushCard (AmbushCard.mk
  "amb_booby" "Booby Traps"
  "When enemy enters zone: deal 2 damage (not implemented yet)."
  0 "ON_ENTER").

Definition base_deck : list card :=
  [ marines; marines;
    scouts; scouts;
    cavalry; cavalry;
    heavy; heavy;
    elite; elite;
    suppression; march; dig_in;
    killzone; booby ].

(** ** The state [Game.__init__] builds before the decks are set up *)

Definition init_zones : gmap ZoneId Zone.t :=
  <[SUPPLY := Zone.mk SUPPLY 2 []]>
  (<[HQ := Zone.mk HQ 2 []]>
  (<[RESERVE := Zone.mk RESERVE 4 []]>
  (<[RIGHT := Zone.mk RIGHT 3 []]>
  (<[CENTER := Zone.mk CENTER 3 []]>
  (<[LEFT := Zone.mk LEFT 3 []]> ∅))))).

Definition init_adj : gmap ZoneId (list ZoneId) :=
  <[RIGHT := [RESERVE; CENTER]]>
  (<[CENTER := [RESERVE; LEFT; RIGHT]]>
  (<[LEFT := [RESERVE; CENTER]]>
  (<[RESERVE := [HQ; SUPPLY; LEFT; CENTER; RIGHT]]>
  (<[SUPPLY := [RESERVE]]>
  (<[HQ := [RESERVE]]> ∅))))).

Definition blank_game : Game :=
  mkGame 1 1 init_zones init_adj (PlayerState.new 1) (PlayerState.new 2).

(** ** Helpers of [Game] that touch no state *)

Definition other_pid (pid : Z) : Z := if pid =? 1 then 2 else 1.

(** [player(pid)] returns a reference to [self.p1] or to [self.p2]. *)
Definition player (self : Game) (pid : Z) : PlayerRef :=
  if pid =? 1 then P1 else P2.

(** [zone(zid)] is [self.zones[zid]]: [None] stands for [KeyError]. *)
Definition zone (self : Game) (zid : ZoneId) : option Zone.t := zones self !! zid.

(** [game_over] reads the two morales; the game it returns is the game after
    the call. *)
Definition game_over (self : Game) : option Z * Game :=
  if PlayerState.morale (p1 self) <=? 0 then (Some 2, self)
  else if PlayerState.morale (p2 self) <=? 0 then (Some 1, self)
  else (None, self).

(** The block [# swap player] that ends [play_one_turn]. *)
Definition swap_player (self : Game) : Game :=
  let self' := set_active_pid (other_pid (active_pid self)) self in
  if active_pid self' =? 1 then set_turn (turn self' + 1) self' else self'.

(** ** A concrete random source

    [cut_shuffle] cuts the list at a position taken from the seed and steps
    the seed; it instantiates the random source the engine is parameterised
    by wherever a concrete run is needed. *)

Definition cut_shuffle (seed : nat) (l : list card) : nat * list card :=
  (S (seed * 5 + 3), rotate seed l).

(** ** Python strings and the console

    A Python [str] is a sequence of code points.  [py] reads a literal of
    the source that is all ASCII; the one character of the program's
    messages outside ASCII is the em dash. *)

Definition pystr := list N.

Definition py (s : string) : pystr :=
  Ascii.N_of_ascii <$> String.list_ascii_of_string s.

Definition newline : pystr := [10%N].
Definition em_dash : pystr := [8212%N].

(** The exceptions the program can raise. *)
Inductive Exn := KeyError | ValueError | EOFError.

#[global] Instance Exn_eq_dec : EqDecision Exn.
Proof. solve_decision. Defined.

(** The methods of [str] and the conversions between [str] and [int] that
    the program calls.  They are Python's, not the program's, and nothing is
    assumed of them: [int_of_str] is [int(s)] and [str_of_int] is the
    fstringting of an [int] inside an f-string, each with [None] for the
    [ValueError] it can raise. *)
Record StrLib := mkStrLib {
  str_strip : pystr -> pystr;
  str_lower : pystr -> pystr;
  str_upper : pystr -> pystr;
  str_isdigit : pystr -> bool;
  int_of_str : pystr -> option Z;
  str_of_int : Z -> option pystr
}.

(** Standard input as the lines still to be read, standard output as the
    pieces written so far. *)
Record Console := mkConsole { stdin : list pystr; stdout : list pystr }.

(** [print(s)] *)
Definition print (s : pystr) (out : list pystr) : list pystr := out ++ [s ++ newline].

(** [sep.join(l)] *)
Fixpoint join (sep : pystr) (l : list pystr) : pystr :=
  match l with
  | [] => []
  | [x] => x
  | x :: l' => x ++ sep ++ join sep l'
  end.

(** [f"{s:8}"] for a string [s]: padded with spaces on the right. *)
Definition ljust (width : nat) (s : pystr) : pystr :=
  s ++ replicate (width - length s) 32%N.

(** The pieces of an f-string: literal text and strings are copied, an
    [int] is fstringted. *)
Inductive piece := Lit (s : pystr) | Int (z : Z).

Definition ZoneId_value (z : ZoneId) : string :=
  match z with
  | LEFT => "LEFT" | CENTER => "CENTER" | RIGHT => "RIGHT"
  | RESERVE => "RESERVE" | HQ => "HQ" | SUPPLY => "SUPPLY"
  end.

Definition CardKind_value (k : CardKind) : string :=
  match k with TROOP => "TROOP" | STRATEGEM => "STRATEGEM" | AMBUSH => "AMBUSH" end.

Definition card_name (c : card) : string :=
  match c with
  | IsCard b => Card.name b
  | IsTroopCard t => TroopCard.name t
  | IsStrategemCard s => StrategemCard.name s
  | IsAmbushCard a => AmbushCard.name a
  end.

(** [z in ["HQ", "RESERVE"]], with [ZoneId[z]] where it holds. *)
Definition zone_named (z : pystr) : option ZoneId :=
  if bool_decide (z = py "HQ") then Some HQ
  else if bool_decide (z = py "RESERVE") then Some RESERVE
  else None.

(** How a run of [main] stands: still in its loop after the turns asked
    for, returned after naming the winner, or left by an exception. *)
Inductive Outcome := Running | Won (pid : Z) | Raised (e : Exn).

(** ** A concrete string library

    A plain reading of the methods, for concrete runs: spaces are stripped,
    ASCII letters change case, and a string of ASCII digits is a number.
    As in Python, [isdigit] accepts more than [int] does: here the
    superscript two, which [int] refuses. *)

Definition ascii_strip (s : pystr) : pystr :=
  let drop_spaces := fix go (l : pystr) :=
    match l with
    | x :: l' => if (x =? 32)%N then go l' else l
    | [] => []
    end in
  rev (drop_spaces (rev (drop_spaces s))).

Definition ascii_lower (s : pystr) : pystr :=
  (fun x => if ((65 <=? x) && (x <=? 90))%N then (x + 32)%N else x) <$> s.

Definition ascii_upper (s : pystr) : pystr :=
  (fun x => if ((97 <=? x) && (x <=? 122))%N then (x - 32)%N else x) <$> s.

Definition ascii_isdigit (s : pystr) : bool :=
  match s with
  | [] => false
  | _ => forallb (fun x => ((48 <=? x) && (x <=? 57) || (x =? 178))%N) s
  end.

Definition ascii_int (s : pystr) : option Z :=
  match s with
  | [] => None
  | _ =>
      if forallb (fun x => ((48 <=? x) && (x <=? 57))%N) s
      then Some (fold_left (fun acc x => 10 * acc + Z.of_N (x - 48)) s 0)
      else None
  end.

Definition ascii_lib : StrLib :=
  mkStrLib ascii_strip ascii_lower ascii_upper ascii_isdigit ascii_int
    (fun z => Some (py (pretty z))).

(** The operations of the engine, as data. *)
Inductive Op :=
| OpDraw (p : PlayerRef) (n : Z)
| OpStartPhase (p : PlayerRef)
| OpDeploy (p : PlayerRef) (hand_index : Z) (target_zone : ZoneId)
| OpSwap.

(** Two states outside the runs of the engine, for the win check. *)
Definition both_broken : Game :=
  mkGame 1 1 init_zones init_adj
    (PlayerState.mk 1 0 0 [] [] []) (PlayerState.mk 2 0 0 [] [] []).

Definition second_broken : Game :=
  mkGame 3 2 init_zones init_adj
    (PlayerState.mk 1 4 5 [] [] []) (PlayerState.mk 2 (-1) 5 [] [] []).

(** A player whose deck is used up, with three cards in the discard. *)
Definition reshuffle_demo : Game :=
  mkGame 2 1 init_zones init_adj
    (PlayerState.mk 1 25 4 [] [scouts] [marines; heavy; booby])
    (PlayerState.new 2).

(** ** The engine, over an arbitrary random source

    [random.shuffle] belongs to Python's library, not to the program: the
    engine is parameterised by the type [Rng] of the states of the random
    source and by [shuffle], which maps a state and a list to the next state
    and the shuffled list.  All that is assumed of it is that it permutes. *)

Section Engine.

Variable Rng : Type.
Variable shuffle : Rng -> list card -> Rng * list card.
Hypothesis shuffle_perm : forall r l, (shuffle r l).2 ≡ₚ l.

(** The string library of the console. *)
Variable lib : StrLib.

(** *** Setup *)

Definition _init_sample_decks (r : Rng) (self : Game) : Rng * Game :=
  let self1 := assign P1 (PlayerState.set_deck (base_deck ++ base_deck) (p1 self)) self in
  let self2 := assign P2 (PlayerState.set_deck (base_deck ++ base_deck) (p2 self1)) self1 in
  let '(r1, d1) := shuffle r (PlayerState.deck (p1 self2)) in
  let self3 := assign P1 (PlayerState.set_deck d1 (p1 self2)) self2 in
  let '(r2, d2) := shuffle r1 (PlayerState.deck (p2 self3)) in
  (r2, assign P2 (PlayerState.set_deck d2 (p2 self3)) self3).

(** One iteration of the [for] loop of [_draw]. *)
Definition draw_body (r : Rng) (p : PlayerState.t) : Rng * PlayerState.t :=
  let '(r1, q) :=
    match PlayerState.deck p with
    | [] =>
        (* reshuffle discard into deck *)
        let '(r', d) := shuffle r (PlayerState.discard p) in
        (r', PlayerState.set_deck d (PlayerState.set_discard [] p))
    | _ :: _ => (r, p)
    end in
  match pop (PlayerState.deck q) with
  | Some (front, top) =>
      (r1, PlayerState.set_hand (PlayerState.hand q ++ [top])
             (PlayerState.set_deck front q))
  | None => (r1, q)
  end.

Fixpoint draw_loop (k : nat) (r : Rng) (p : PlayerState.t) : Rng * PlayerState.t :=
  match k with
  | O => (r, p)
  | S k' => let '(r1, q) := draw_body r p in draw_loop k' r1 q
  end.

(** [_draw(p, n)]: [range(n)] has [Z.to_nat n] elements. *)
Definition _draw (r : Rng) (self : Game) (p : PlayerRef) (n : Z) : Rng * Game :=
  let '(r1, s) := draw_loop (Z.to_nat n) r (deref self p) in
  (r1, assign p s self).

Definition _draw_starting_hands (r : Rng) (self : Game) : Rng * Game :=
  let '(r1, self1) := _draw r self P1 5 in
  _draw r1 self1 P2 5.

(** [Game()] *)
Definition new_Game (r : Rng) : Rng * Game :=
  let '(r1, self1) := _init_sample_decks r blank_game in
  _draw_starting_hands r1 self1.

(** *** Phases *)

Definition reset_attacks (pid : Z) (z : Zone.t) : Zone.t :=
  Zone.set_units
    ((fun u => if Unit.owner u =? pid
               then Unit.set_attacked_this_turn false u else u) <$> Zone.units z)
    z.

Definition start_phase (r : Rng) (self : Game) (p : PlayerRef) : Rng * Game :=
  let s := deref self p in
  let self1 := assign p (PlayerState.set_cp (Z.min 5 (PlayerState.cp s + 2)) s) self in
  let '(r1, self2) := _draw r self1 p 1 in
  (* reset attacks *)
  (r1, set_zones (reset_attacks (PlayerState.pid (deref self2 p)) <$> zones self2) self2).

Definition deploy_troop_from_hand (self : Game) (p : PlayerRef)
    (hand_index : Z) (target_zone : ZoneId) : option (bool * Game) :=
  let s := deref self p in
  if (hand_index <? 0) || (Z.of_nat (length (PlayerState.hand s)) <=? hand_index)
  then Some (false, self)
  else
    match PlayerState.hand s !! Z.to_nat hand_index with
    | None => None
    | Some (IsTroopCard tc as c) =>
        match zone self target_zone with
        | None => None
        | Some z =>
            if negb (Zone.has_space z) then Some (false, self)
            else
              let unit :=
                Unit.mk tc (PlayerState.pid s) target_zone
                  (TroopStats.coh (TroopCard.stats tc))
                  (TroopStats.max_ammo (TroopCard.stats tc))
                  false in
              let self1 :=
                set_zones
                  (<[target_zone := Zone.set_units (Zone.units z ++ [unit]) z]> (zones self))
                  self in
              let s1 := PlayerState.set_discard (PlayerState.discard s ++ [c]) s in
              let s2 := PlayerState.set_hand (delete (Z.to_nat hand_index) (PlayerState.hand s1)) s1 in
              Some (true, assign p s2 self1)
        end
    | Some _ => Some (false, self)
    end.

(** *** Printing *)

(** An f-string, piece by piece; the first [int] that cannot be formatted
    raises. *)
Fixpoint fstring (ps : list piece) : option pystr :=
  match ps with
  | [] => Some []
  | Lit s :: ps' => (fun t => s ++ t) <$> fstring ps'
  | Int z :: ps' =>
      match str_of_int lib z with
      | None => None
      | Some s => (fun t => s ++ t) <$> fstring ps'
      end
  end.

(** [f"P{u.owner}:{u.name}(COH {u.coh})"] *)
Definition unit_desc (u : Unit.t) : option pystr :=
  fstring [Lit (py "P"); Int (Unit.owner u); Lit (py ":"); Lit (py (Unit.name u));
          Lit (py "(COH "); Int (Unit.coh u); Lit (py ")")].

(** The [for] loop of [print_board]: a zone that is not in the dictionary
    raises [KeyError], with the lines of the zones before it written. *)
Fixpoint print_zones (zids : list ZoneId) (self : Game) (out : list pystr)
    : option Exn * list pystr :=
  match zids with
  | [] => (None, out)
  | zid :: zids' =>
      match zone self zid with
      | None => (Some KeyError, out)
      | Some z =>
          match mapM unit_desc (Zone.units z) with
          | None => (Some ValueError, out)
          | Some descs =>
              let joined := join (py ", ") descs in
              let units_desc := match joined with [] => em_dash | _ => joined end in
              match fstring [Lit (ljust 8 (py (ZoneId_value zid))); Lit (py " [");
                            Int (Z.of_nat (length (Zone.units z))); Lit (py "/");
                            Int (Zone.capacity z); Lit (py "]: "); Lit units_desc] with
              | None => (Some ValueError, out)
              | Some line => print_zones zids' self (print line out)
              end
          end
      end
  end.

Definition print_board (self : Game) (out : list pystr) : option Exn * list pystr :=
  match print_zones [LEFT; CENTER; RIGHT; RESERVE; HQ; SUPPLY] self
          (print (newline ++ py "=== BATTLEFIELD ===") out) with
  | (Some e, out1) => (Some e, out1)
  | (None, out1) => (None, print (py "===================" ++ newline) out1)
  end.

(** The text [print_hand] adds after the name of a card. *)
Definition card_extra (c : card) : option pystr :=
  match c with
  | IsCard _ => Some []
  | IsTroopCard t =>
      fstring [Lit (py " STR "); Int (TroopStats.str (TroopCard.stats t));
              Lit (py " ARM "); Int (TroopStats.arm (TroopCard.stats t));
              Lit (py " COH "); Int (TroopStats.coh (TroopCard.stats t))]
  | IsStrategemCard s =>
      fstring [Lit (py " (CP "); Int (StrategemCard.cost_cp s); Lit (py ")")]
  | IsAmbushCard a =>
      fstring [Lit (py " (CP "); Int (AmbushCard.cost_cp a); Lit (py ", ");
              Lit (py (AmbushCard.trigger a)); Lit (py ")")]
  end.

(** The [for] loop of [print_hand], [i] being the number of the next card. *)
Fixpoint print_cards (i : Z) (cards : list card) (out : list pystr)
    : option Exn * list pystr :=
  match cards with
  | [] => (None, out)
  | c :: cards' =>
      match card_extra c with
      | None => (Some ValueError, out)
      | Some extra =>
          match fstring [Lit (py "  "); Int i; Lit (py ". [");
                        Lit (py (CardKind_value (card_kind c))); Lit (py "] ");
                        Lit (py (card_name c)); Lit extra] with
          | None => (Some ValueError, out)
          | Some line => print_cards (i + 1) cards' (print line out)
          end
      end
  end.

Definition print_hand (p : PlayerState.t) (out : list pystr) : option Exn * list pystr :=
  match fstring [Lit (py "P"); Int (PlayerState.pid p); Lit (py " Hand (CP ");
                Int (PlayerState.cp p); Lit (py ", Morale ");
                Int (PlayerState.morale p); Lit (py "):")] with
  | None => (Some ValueError, out)
  | Some header =>
      match print_cards 1 (PlayerState.hand p) (print header out) with
      | (Some e, out1) => (Some e, out1)
      | (None, out1) => (None, print [] out1)
      end
  end.

(** *** The demo loop *)

(** The [while True] loop of [play_one_turn], over the lines that are left
    on standard input.  [input] writes its prompt and raises [EOFError]
    when no line is left.  Both the hand number and the zone are read
    before either is looked at; [int(idx)] is reached only for a number
    that passes [isdigit] and a zone that is HQ or RESERVE, and the game
    keeps what was done to it when an exception ends the loop. *)
Fixpoint main_loop (lines : list pystr) (self : Game) (p : PlayerRef) (out : list pystr)
    {struct lines} : option Exn * (Game * Console) :=
  let out0 := out ++ [py "Type 'd' to deploy a troop, or 'end' to end turn: "] in
  match lines with
  | [] => (Some EOFError, (self, mkConsole [] out0))
  | l :: rest =>
      let choice := str_lower lib (str_strip lib l) in
      if bool_decide (choice = py "end") then (None, (self, mkConsole rest out0))
      else if bool_decide (choice = py "d") then
        let out1 := out0 ++ [py "Which hand number? "] in
        match rest with
        | [] => (Some EOFError, (self, mkConsole [] out1))
        | li :: rest1 =>
            let idx := str_strip lib li in
            let out2 := out1 ++ [py "Zone (HQ or RESERVE): "] in
            match rest1 with
            | [] => (Some EOFError, (self, mkConsole [] out2))
            | lz :: rest2 =>
                let z := str_upper lib (str_strip lib lz) in
                if negb (str_isdigit lib idx)
                then main_loop rest2 self p (print (py "Not a number.") out2)
                else
                  match zone_named z with
                  | None =>
                      main_loop rest2 self p (print (py "Only HQ or RESERVE for now.") out2)
                  | Some zid =>
                      match int_of_str lib idx with
                      | None => (Some ValueError, (self, mkConsole rest2 out2))
                      | Some n =>
                          match deploy_troop_from_hand self p (n - 1) zid with
                          | None => (Some KeyError, (self, mkConsole rest2 out2))
                          | Some (ok, self') =>
                              let out3 :=
                                print (if ok then py "Deployed!" else py "Failed to deploy.")
                                  out2 in
                              match print_board self' out3 with
                              | (Some e, out4) => (Some e, (self', mkConsole rest2 out4))
                              | (None, out4) =>
                                  match print_hand (deref self' p) out4 with
                                  | (Some e, out5) => (Some e, (self', mkConsole rest2 out5))
                                  | (None, out5) => main_loop rest2 self' p out5
                                  end
                              end
                          end
                      end
                  end
            end
        end
      else main_loop rest self p out0
  end.

Definition play_one_turn (r : Rng) (self : Game) (c : Console)
    : option Exn * (Rng * Game * Console) :=
  let p := player self (active_pid self) in
  match fstring [Lit (newline ++ py "===== TURN "); Int (turn self);
                Lit (py " " ++ em_dash ++ py " Player ");
                Int (PlayerState.pid (deref self p)); Lit (py " =====")] with
  | None => (Some ValueError, (r, self, c))
  | Some header =>
      let out0 := print header (stdout c) in
      let '(r1, self1) := start_phase r self p in
      match print_board self1 out0 with
      | (Some e, out1) => (Some e, (r1, self1, mkConsole (stdin c) out1))
      | (None, out1) =>
          match print_hand (deref self1 p) out1 with
          | (Some e, out2) => (Some e, (r1, self1, mkConsole (stdin c) out2))
          | (None, out2) =>
              match main_loop (stdin c) self1 p out2 with
              | (Some e, (self2, c2)) => (Some e, (r1, self2, c2))
              | (None, (self2, c2)) => (None, (r1, swap_player self2, c2))
              end
          end
      end
  end.

(** The lines on which the loop of a turn comes to ['end'] with every
    [int(idx)] on the way accepted, and the lines left after it. *)
Fixpoint ends_turn (lines : list pystr) : option (list pystr) :=
  match lines with
  | [] => None
  | l :: rest =>
      let choice := str_lower lib (str_strip lib l) in
      if bool_decide (choice = py "end") then Some rest
      else if bool_decide (choice = py "d") then
        match rest with
        | li :: lz :: rest2 =>
            if negb (str_isdigit lib (str_strip lib li)) then ends_turn rest2
            else
              match zone_named (str_upper lib (str_strip lib lz)) with
              | None => ends_turn rest2
              | Some _ =>
                  match int_of_str lib (str_strip lib li) with
                  | None => None
                  | Some _ => ends_turn rest2
                  end
              end
        | _ => None
        end
      else ends_turn rest
  end.

(** *** Runs of the engine *)

Definition run_op (o : Op) (w : Rng * Game) : option (Rng * Game) :=
  match o with
  | OpDraw p n => Some (_draw w.1 w.2 p n)
  | OpStartPhase p => Some (start_phase w.1 w.2 p)
  | OpDeploy p i z =>
      match deploy_troop_from_hand w.2 p i z with
      | None => None
      | Some (_, g) => Some (w.1, g)
      end
  | OpSwap => Some (w.1, swap_player w.2)
  end.

(** The states of the random source and the game that a run can reach: the
    state [Game()] builds, and every state an operation yields from one. *)
Inductive reachable : Rng * Game -> Prop :=
| reach_new r : reachable (new_Game r)
| reach_op o w w' : reachable w -> run_op o w = Some w' -> reachable w'.

(** The cards of a player, wherever they lie. *)
Definition cards_of (s : PlayerState.t) : list card :=
  PlayerState.deck s ++ PlayerState.hand s ++ PlayerState.discard s.

(** Every zone holds at most as many units as its capacity. *)
Definition within_capacity (g : Game) : Prop :=
  forall zid z, zones g !! zid = Some z ->
    Z.of_nat (length (Zone.units z)) <= Zone.capacity z.

(** What [draw_body] leaves alone, and where the cards go. *)
Record draw_related (p q : PlayerState.t) : Prop := {
  dr_pid : PlayerState.pid q = PlayerState.pid p;
  dr_morale : PlayerState.morale q = PlayerState.morale p;
  dr_cp : PlayerState.cp q = PlayerState.cp p;
  dr_cards : cards_of q ≡ₚ cards_of p;
  dr_hand : exists cs, PlayerState.hand q = PlayerState.hand p ++ cs
}.

(** [isinstance(card, TroopCard)] *)
Definition isinstance_TroopCard (c : card) : bool :=
  match c with IsTroopCard _ => true | _ => false end.

(** The three ways [deploy_troop_from_hand] can end without an exception. *)
Inductive deploy_outcome (g : Game) (p : PlayerRef) (i : Z) (zid : ZoneId)
  : bool -> Game -> Prop :=
| deploy_refused : deploy_outcome g p i zid false g
| deploy_done tc z :
    0 <= i < Z.of_nat (length (PlayerState.hand (deref g p))) ->
    PlayerState.hand (deref g p) !! Z.to_nat i = Some (IsTroopCard tc) ->
    zones g !! zid = Some z ->
    Zone.has_space z = true ->
    deploy_outcome g p i zid true
      (assign p
         (PlayerState.set_hand (delete (Z.to_nat i) (PlayerState.hand (deref g p)))
            (PlayerState.set_discard
               (PlayerState.discard (deref g p) ++ [IsTroopCard tc]) (deref g p)))
         (set_zones
            (<[zid := Zone.set_units
                        (Zone.units z ++
                           [Unit.mk tc (PlayerState.pid (deref g p)) zid
                              (TroopStats.coh (TroopCard.stats tc))
                              (TroopStats.max_ammo (TroopCard.stats tc)) false]) z]>
               (zones g))
            g)).

(** All six zones are in the dictionary. *)
Definition has_zones (g : Game) : Prop := forall zid, is_Some (zones g !! zid).

(** *** The program *)

(** The [while True] loop of [main], for at most [turns] turns: the loop
    returns after naming the winner as soon as [game_over] finds one, an
    exception of a turn ends it, and it is still running when the turns
    asked for have been played. *)
Fixpoint main_rounds (turns : nat) (r : Rng) (g : Game) (c : Console)
    : Outcome * (Rng * Game * Console) :=
  let '(winner, g0) := game_over g in
  match winner with
  | Some pid =>
      match fstring [Lit (py "PLAYER "); Int pid; Lit (py " WINS!")] with
      | None => (Raised ValueError, (r, g0, c))
      | Some line => (Won pid, (r, g0, mkConsole (stdin c) (print line (stdout c))))
      end
  | None =>
      match turns with
      | O => (Running, (r, g0, c))
      | S turns' =>
          match play_one_turn r g0 c with
          | (Some e, w) => (Raised e, w)
          | (None, (r1, g1, c1)) => main_rounds turns' r1 g1 c1
          end
      end
  end.

(** [main()], on the lines of standard input. *)
Definition main (turns : nat) (r : Rng) (lines : list pystr)
    : Outcome * (Rng * Game * Console) :=
  let out :=
    print (py "This version only lets you DRAW and DEPLOY troops to HQ/RESERVE." ++ newline)
      (print (py "Clash of Commands " ++ em_dash ++ py " Starter Prototype") []) in
  let '(r0, g) := new_Game r in
  main_rounds turns r0 g (mkConsole lines out).

(** *** Vocabulary of the statements *)

(** What an operation can do to one player: nothing, some iterations of
    the draw loop, the start phase, or the removal of a troop card from the
    hand to the discard. *)
Inductive player_step (s : PlayerState.t) : PlayerState.t -> Prop :=
| player_same : player_step s s
| player_draws k r : player_step s (draw_loop k r s).2
| player_starts r :
    player_step s
      (draw_loop 1 r (PlayerState.set_cp (Z.min 5 (PlayerState.cp s + 2)) s)).2
| player_deploys i tc :
    (i < length (PlayerState.hand s))%nat ->
    PlayerState.hand s !! i = Some (IsTroopCard tc) ->
    player_step s
      (PlayerState.set_hand (delete i (PlayerState.hand s))
         (PlayerState.set_discard (PlayerState.discard s ++ [IsTroopCard tc]) s)).

(** What an operation can do to the zones: nothing, the reset of the
    attack flags of one player's units, or one more unit, made by
    [deploy_troop_from_hand] from a card of the hand, at the end of a zone
    that had space. *)
Inductive zones_step (g : Game) : gmap ZoneId Zone.t -> Prop :=
| zones_same : zones_step g (zones g)
| zones_reset pid : zones_step g (reset_attacks pid <$> zones g)
| zones_deploy p c tc zid z :
    c ∈ PlayerState.hand (deref g p) ->
    c = IsTroopCard tc ->
    zones g !! zid = Some z ->
    Zone.has_space z = true ->
    zones_step g
      (<[zid := Zone.set_units
                  (Zone.units z ++
                     [Unit.mk tc (PlayerState.pid (deref g p)) zid
                        (TroopStats.coh (TroopCard.stats tc))
                        (TroopStats.max_ammo (TroopCard.stats tc)) false]) z]>
         (zones g)).

(** A unit of zone [zid] that is as [deploy_troop_from_hand] makes units:
    placed in [zid], owned by player 1 or 2, made of a troop card of the
    catalog, with the cohesion and the ammunition of that card, and with
    the attack flag down. *)
Definition as_deployed (zid : ZoneId) (u : Unit.t) : Prop :=
  Unit.zone u = zid /\
  (Unit.owner u = 1 \/ Unit.owner u = 2) /\
  IsTroopCard (Unit.card u) ∈ base_deck /\
  Unit.coh u = TroopStats.coh (TroopCard.stats (Unit.card u)) /\
  Unit.ammo u = TroopStats.max_ammo (TroopCard.stats (Unit.card u)) /\
  Unit.attacked_this_turn u = false.

(** The number of units in a zone (none when the zone is not in the
    dictionary) and on the whole board. *)
Definition units_in (g : Game) (zid : ZoneId) : nat :=
  from_option (fun z => length (Zone.units z)) 0%nat (zones g !! zid).

Definition units_on_board (g : Game) : nat :=
  (units_in g LEFT + units_in g CENTER + units_in g RIGHT
   + units_in g RESERVE + units_in g HQ + units_in g SUPPLY)%nat.

(** [y] is listed among the neighbours of [x]. *)
Definition adjacent (a : gmap ZoneId (list ZoneId)) (x y : ZoneId) : Prop :=
  exists l, a !! x = Some l /\ y ∈ l.

(** The zones the demo loop never deploys to. *)
Definition front_zone (zid : ZoneId) : bool :=
  match zid with HQ | RESERVE => false | _ => true end.

(** What the loop of a turn can do to the game: deploys of the player
    into HQ or RESERVE, one after the other. *)
Inductive hq_deploys (p : PlayerRef) : Game -> Game -> Prop :=
| hq_none g : hq_deploys p g g
| hq_more g i zid ok g1 g2 :
    front_zone zid = false ->
    deploy_troop_from_hand g p i zid = Some (ok, g1) ->
    hq_deploys p g1 g2 ->
    hq_deploys p g g2.

(** What the state after [n] whole turns looks like. *)
Definition after_turns (n : nat) (g : Game) : Prop :=
  active_pid g = 1 + Z.of_nat n mod 2 /\
  turn g = 1 + Z.of_nat n / 2 /\
  PlayerState.cp (p1 g) = Z.min 5 (2 * ((Z.of_nat n + 1) / 2)) /\
  PlayerState.cp (p2 g) = Z.min 5 (2 * (Z.of_nat n / 2)) /\
  (forall k, front_zone k = true -> units_in g k = 0%nat).

(** ** Lists and references *)

Lemma pop_snoc (d : list card) (c : card) : pop (d ++ [c]) = Some (d, c).
Proof.
  induction d as [|x d IH]; simpl; [reflexivity|].
  rewrite IH. reflexivity.
Qed.

Lemma pop_Some (l d : list card) (c : card) : pop l = Some (d, c) -> l = d ++ [c].
Proof.
  revert d. induction l as [|x l IH]; intros d; simpl; [discriminate|].
  destruct (pop l) as [[front top]|] eqn:E.
  - intros [= <- <-]. simpl. f_equal. apply IH. reflexivity.
  - intros [= <- <-]. destruct l; [reflexivity|].
    simpl in E. destruct (pop l) as [[? ?]|]; discriminate.
Qed.

Lemma pop_None (l : list card) : pop l = None -> l = [].
Proof.
  destruct l as [|x l]; [reflexivity|]. simpl.
  destruct (pop l) as [[? ?]|]; discriminate.
Qed.

Lemma deref_assign_same p s g : deref (assign p s g) p = s.
Proof. destruct p; reflexivity. Qed.

Lemma deref_assign_other p s g : deref (assign p s g) (the_other p) = deref g (the_other p).
Proof. destruct p; reflexivity. Qed.

Lemma assign_deref p g : assign p (deref g p) g = g.
Proof. destruct p, g; reflexivity. Qed.

Lemma zones_assign p s g : zones (assign p s g) = zones g.
Proof. destruct p; reflexivity. Qed.

Lemma ref_cases (p q : PlayerRef) : q = p \/ q = the_other p.
Proof. destruct p, q; auto. Qed.

Lemma cut_shuffle_perm (seed : nat) (l : list card) : (cut_shuffle seed l).2 ≡ₚ l.
Proof.
  unfold cut_shuffle, rotate. simpl.
  rewrite Permutation_app_comm. rewrite take_drop. reflexivity.
Qed.

(** ** What one draw does *)

Lemma draw_related_refl p : draw_related p p.
Proof.
  split; try reflexivity. exists []. rewrite app_nil_r. reflexivity.
Qed.

Lemma draw_related_trans p q s : draw_related p q -> draw_related q s -> draw_related p s.
Proof.
  intros [A1 A2 A3 A4 [c1 A5]] [B1 B2 B3 B4 [c2 B5]]. split; try congruence.
  - rewrite B4. exact A4.
  - exists (c1 ++ c2). rewrite B5, A5, app_assoc. reflexivity.
Qed.

Lemma draw_body_nonempty r p d c :
  PlayerState.deck p = d ++ [c] ->
  draw_body r p =
    (r, PlayerState.set_hand (PlayerState.hand p ++ [c]) (PlayerState.set_deck d p)).
Proof.
  intros E. unfold draw_body.
  destruct (PlayerState.deck p) as [|x l] eqn:E'.
  - destruct d; discriminate.
  - cbv beta iota zeta. rewrite E', E, pop_snoc. reflexivity.
Qed.

Lemma draw_body_reshuffle r p d c :
  PlayerState.deck p = [] ->
  (shuffle r (PlayerState.discard p)).2 = d ++ [c] ->
  draw_body r p =
    ((shuffle r (PlayerState.discard p)).1,
     PlayerState.set_hand (PlayerState.hand p ++ [c])
       (PlayerState.set_deck d (PlayerState.set_discard [] p))).
Proof.
  intros E S. unfold draw_body. rewrite E.
  destruct (shuffle r (PlayerState.discard p)) as [r' l]. simpl in *. subst l.
  rewrite pop_snoc. reflexivity.
Qed.

Lemma draw_body_exhausted r p :
  PlayerState.deck p = [] -> PlayerState.discard p = [] ->
  (draw_body r p).2 = p.
Proof using shuffle_perm.
  intros E D. unfold draw_body. rewrite E.
  pose proof (shuffle_perm r (PlayerState.discard p)) as H.
  destruct (shuffle r (PlayerState.discard p)) as [r' l]. simpl in *.
  rewrite D in H. apply Permutation_nil_r in H. subst l. simpl.
  destruct p; simpl in *; subst; reflexivity.
Qed.

Lemma draw_body_related r p : draw_related p (draw_body r p).2.
Proof using shuffle_perm.
  destruct (PlayerState.deck p) as [|x l] eqn:E.
  - pose proof (shuffle_perm r (PlayerState.discard p)) as H.
    destruct (pop (shuffle r (PlayerState.discard p)).2) as [[d c]|] eqn:P.
    + apply pop_Some in P. rewrite (draw_body_reshuffle r p d c E P). simpl.
      split; simpl; try reflexivity.
      * unfold cards_of; simpl. rewrite E, app_nil_r. simpl.
        rewrite <- H, P. rewrite (Permutation_app_comm d).
        rewrite <- app_assoc. apply Permutation_app_head, Permutation_app_comm.
      * eauto.
    + apply pop_None in P. rewrite P in H. apply Permutation_nil_l in H.
      rewrite draw_body_exhausted by auto. apply draw_related_refl.
  - destruct (pop (x :: l)) as [[d c]|] eqn:P.
    + apply pop_Some in P. rewrite <- E in P.
      rewrite (draw_body_nonempty r p d c P). simpl.
      split; simpl; try reflexivity.
      * unfold cards_of; simpl. rewrite P.
        rewrite !app_assoc. apply Permutation_app_tail.
        rewrite <- !app_assoc. apply Permutation_app_head, Permutation_app_comm.
      * eauto.
    + apply pop_None in P. discriminate.
Qed.

Lemma draw_loop_related k : forall r p, draw_related p (draw_loop k r p).2.
Proof using shuffle_perm.
  induction k as [|k IH]; intros r p; simpl.
  - apply draw_related_refl.
  - pose proof (draw_body_related r p) as H.
    destruct (draw_body r p) as [r1 q]. simpl in H.
    eapply draw_related_trans; [exact H | apply IH].
Qed.

(** The morale, the command points and the id do not need the random source
    to permute. *)
Lemma draw_body_fields r p :
  PlayerState.pid (draw_body r p).2 = PlayerState.pid p /\
  PlayerState.morale (draw_body r p).2 = PlayerState.morale p /\
  PlayerState.cp (draw_body r p).2 = PlayerState.cp p.
Proof.
  unfold draw_body.
  destruct (PlayerState.deck p); [destruct (shuffle r (PlayerState.discard p)) as [r' d]|];
    cbv beta iota zeta;
    match goal with |- context [pop ?l] => destruct (pop l) as [[? ?]|] end;
    simpl; auto.
Qed.

Lemma draw_loop_fields k : forall r p,
  PlayerState.pid (draw_loop k r p).2 = PlayerState.pid p /\
  PlayerState.morale (draw_loop k r p).2 = PlayerState.morale p /\
  PlayerState.cp (draw_loop k r p).2 = PlayerState.cp p.
Proof.
  induction k as [|k IH]; intros r p; simpl; [auto|].
  pose proof (draw_body_fields r p) as (A & B & C).
  destruct (draw_body r p) as [r1 q]. simpl in *.
  destruct (IH r1 q) as (A' & B' & C'). repeat split; congruence.
Qed.

(** At most one card per iteration reaches the hand. *)
Lemma draw_body_hand r p :
  exists cs, PlayerState.hand (draw_body r p).2 = PlayerState.hand p ++ cs /\
             (length cs <= 1)%nat.
Proof.
  unfold draw_body.
  destruct (PlayerState.deck p) as [|x l0];
    [destruct (shuffle r (PlayerState.discard p)) as [r' d]|];
    cbv beta iota zeta;
    match goal with |- context [pop ?l] => destruct (pop l) as [[? c]|] end;
    simpl;
    first [ exists [c]; split; [reflexivity | simpl; lia]
          | exists []; rewrite app_nil_r; split; [reflexivity | simpl; lia] ].
Qed.

Lemma draw_loop_hand k : forall r p,
  exists cs, PlayerState.hand (draw_loop k r p).2 = PlayerState.hand p ++ cs /\
             (length cs <= k)%nat.
Proof.
  induction k as [|k IH]; intros r p; simpl.
  - exists []. rewrite app_nil_r. split; [reflexivity | simpl; lia].
  - destruct (draw_body_hand r p) as (c1 & H1 & L1).
    destruct (draw_body r p) as [r1 q]. simpl in *.
    destruct (IH r1 q) as (c2 & H2 & L2).
    exists (c1 ++ c2). rewrite H2, H1, app_assoc, length_app.
    split; [reflexivity | lia].
Qed.

(** With enough cards in the deck nothing is reshuffled: the top [k] cards
    reach the hand, the topmost first. *)
Lemma draw_loop_from_deck k : forall r p,
  (k <= length (PlayerState.deck p))%nat ->
  draw_loop k r p =
    (r, PlayerState.set_hand
          (PlayerState.hand p
             ++ rev (drop (length (PlayerState.deck p) - k) (PlayerState.deck p)))
          (PlayerState.set_deck
             (take (length (PlayerState.deck p) - k) (PlayerState.deck p)) p)).
Proof.
  induction k as [|k IH]; intros r p L.
  - simpl. rewrite Nat.sub_0_r, drop_all, firstn_all, app_nil_r.
    destruct p; reflexivity.
  - destruct (pop (PlayerState.deck p)) as [[d c]|] eqn:P.
    2:{ apply pop_None in P. rewrite P in L. simpl in L. lia. }
    apply pop_Some in P. simpl.
    rewrite (draw_body_nonempty r p d c P).
    rewrite IH; simpl; rewrite P in *; rewrite length_app in *; simpl in *; [|lia].
    replace (length d + 1 - S k)%nat with (length d - k)%nat by lia.
    rewrite take_app_le, drop_app_le by lia.
    rewrite rev_app_distr. simpl. rewrite <- app_assoc. reflexivity.
Qed.

(** ** The methods, in terms of the player they are called on *)

Lemma _draw_unfold r g p n :
  _draw r g p n =
    ((draw_loop (Z.to_nat n) r (deref g p)).1,
     assign p (draw_loop (Z.to_nat n) r (deref g p)).2 g).
Proof. unfold _draw. destruct (draw_loop _ r (deref g p)). reflexivity. Qed.

Lemma assign_assign p s s' g : assign p s' (assign p s g) = assign p s' g.
Proof. destruct p; reflexivity. Qed.

Lemma start_phase_unfold r g p :
  let s1 := PlayerState.set_cp (Z.min 5 (PlayerState.cp (deref g p) + 2)) (deref g p) in
  let s2 := (draw_loop 1 r s1).2 in
  start_phase r g p =
    ((draw_loop 1 r s1).1,
     set_zones (reset_attacks (PlayerState.pid s2) <$> zones g) (assign p s2 g)).
Proof.
  intros s1 s2. unfold start_phase. rewrite _draw_unfold.
  rewrite deref_assign_same, assign_assign. fold s1. fold s2.
  rewrite deref_assign_same, zones_assign. reflexivity.
Qed.

Lemma deref_set_zones zs g q : deref (set_zones zs g) q = deref g q.
Proof. destruct q; reflexivity. Qed.

Lemma deref_swap_player g q : deref (swap_player g) q = deref g q.
Proof.
  unfold swap_player. destruct (_ =? 1); destruct q; reflexivity.
Qed.

Lemma zones_swap_player g : zones (swap_player g) = zones g.
Proof. unfold swap_player. destruct (_ =? 1); reflexivity. Qed.

Lemma deploy_inv g p i zid b g' :
  deploy_troop_from_hand g p i zid = Some (b, g') -> deploy_outcome g p i zid b g'.
Proof.
  unfold deploy_troop_from_hand, zone.
  destruct ((i <? 0) || (Z.of_nat (length (PlayerState.hand (deref g p))) <=? i)) eqn:B.
  { intros [= <- <-]. constructor. }
  apply orb_false_iff in B as [B1 B2].
  apply Z.ltb_ge in B1. apply Z.leb_gt in B2.
  destruct (PlayerState.hand (deref g p) !! Z.to_nat i) as [c|] eqn:Hc; [|discriminate].
  destruct c as [b0|tc|sc|ac]; try (intros [= <- <-]; constructor).
  destruct (zones g !! zid) as [z|] eqn:Hz; [|discriminate].
  destruct (Zone.has_space z) eqn:Hs; simpl.
  - intros [= <- <-]. eapply deploy_done; eauto.
  - intros [= <- <-]. constructor.
Qed.

(** ** Turn counter and active player under the operations *)

Lemma start_phase_clock r g p :
  turn (start_phase r g p).2 = turn g /\
  active_pid (start_phase r g p).2 = active_pid g.
Proof. rewrite start_phase_unfold. destruct p; split; reflexivity. Qed.

Lemma deploy_clock g p i zid b g' :
  deploy_troop_from_hand g p i zid = Some (b, g') ->
  turn g' = turn g /\ active_pid g' = active_pid g.
Proof.
  intros H. apply deploy_inv in H. destruct H; destruct p; split; reflexivity.
Qed.

Lemma swap_player_clock g :
  active_pid (swap_player g) = other_pid (active_pid g) /\
  turn (swap_player g) =
    if active_pid (swap_player g) =? 1 then turn g + 1 else turn g.
Proof.
  unfold swap_player. simpl.
  destruct (other_pid (active_pid g) =? 1) eqn:E; simpl; rewrite ?E; auto.
Qed.

(** The dictionary keeps its keys. *)
Lemma start_phase_has_zones r g p : has_zones g -> has_zones (start_phase r g p).2.
Proof.
  intros H zid. rewrite start_phase_unfold. simpl.
  rewrite lookup_fmap. destruct (H zid) as [z ->]. simpl. eauto.
Qed.

Lemma deploy_has_zones g p i zid b g' :
  deploy_troop_from_hand g p i zid = Some (b, g') -> has_zones g -> has_zones g'.
Proof.
  intros D H. apply deploy_inv in D. destruct D; [exact H|].
  intros k. rewrite zones_assign. simpl.
  destruct (decide (zid = k)) as [->|N].
  - rewrite lookup_insert_eq. eauto.
  - rewrite lookup_insert_ne by exact N. apply H.
Qed.

(** With its zone in the dictionary, a deploy request raises nothing. *)
Lemma deploy_total g p i zid :
  is_Some (zones g !! zid) -> is_Some (deploy_troop_from_hand g p i zid).
Proof.
  intros [z Hz]. unfold deploy_troop_from_hand, zone.
  destruct ((i <? 0) || (Z.of_nat (length (PlayerState.hand (deref g p))) <=? i)) eqn:B;
    [eauto|].
  apply orb_false_iff in B as [B1 B2].
  apply Z.ltb_ge in B1. apply Z.leb_gt in B2.
  destruct (lookup_lt_is_Some_2 (PlayerState.hand (deref g p)) (Z.to_nat i)) as [c ->];
    [lia|].
  destruct c; eauto. rewrite Hz. destruct (negb (Zone.has_space z)); eauto.
Qed.

(** ** The constructor *)

Lemma _init_sample_decks_unfold r :
  let sh1 := shuffle r (base_deck ++ base_deck) in
  let sh2 := shuffle sh1.1 (base_deck ++ base_deck) in
  _init_sample_decks r blank_game =
    (sh2.1, mkGame 1 1 init_zones init_adj
              (PlayerState.mk 1 25 0 sh1.2 [] []) (PlayerState.mk 2 25 0 sh2.2 [] [])).
Proof.
  intros sh1 sh2. subst sh1 sh2. unfold _init_sample_decks.
  change (PlayerState.deck (p1 _)) with (base_deck ++ base_deck).
  destruct (shuffle r (base_deck ++ base_deck)) as [r1 l1]. cbv beta iota zeta.
  change (PlayerState.deck (p2 _)) with (base_deck ++ base_deck).
  change ((r1, l1).1) with r1.
  destruct (shuffle r1 (base_deck ++ base_deck)) as [r2 l2]. reflexivity.
Qed.

Lemma new_Game_unfold r :
  let sh1 := shuffle r (base_deck ++ base_deck) in
  let sh2 := shuffle sh1.1 (base_deck ++ base_deck) in
  let d1 := draw_loop 5 sh2.1 (PlayerState.mk 1 25 0 sh1.2 [] []) in
  let d2 := draw_loop 5 d1.1 (PlayerState.mk 2 25 0 sh2.2 [] []) in
  new_Game r = (d2.1, mkGame 1 1 init_zones init_adj d1.2 d2.2).
Proof.
  intros sh1 sh2 d1 d2.
  unfold new_Game, _draw_starting_hands.
  rewrite _init_sample_decks_unfold. fold sh1 sh2.
  rewrite _draw_unfold. cbv beta iota zeta. rewrite _draw_unfold.
  reflexivity.
Qed.

Lemma new_Game_player r q :
  PlayerState.morale (deref (new_Game r).2 q) = 25 /\
  PlayerState.cp (deref (new_Game r).2 q) = 0 /\
  PlayerState.pid (deref (new_Game r).2 q) = match q with P1 => 1 | P2 => 2 end.
Proof.
  rewrite new_Game_unfold. cbv zeta.
  destruct q; cbn [snd deref p1 p2];
    match goal with
    | |- context [(draw_loop ?k ?r ?s).2] =>
        destruct (draw_loop_fields k r s) as (A & B & C)
    end; rewrite A, B, C; auto.
Qed.

Lemma new_Game_cards r q : cards_of (deref (new_Game r).2 q) ≡ₚ base_deck ++ base_deck.
Proof using shuffle_perm.
  rewrite new_Game_unfold. cbv zeta.
  destruct q; cbn [snd deref p1 p2];
    match goal with
    | |- context [(draw_loop ?k ?r ?s).2] =>
        rewrite (dr_cards _ _ (draw_loop_related k r s))
    end; unfold cards_of; cbn [PlayerState.deck PlayerState.hand PlayerState.discard];
    rewrite !app_nil_r; apply shuffle_perm.
Qed.

Lemma new_Game_board r :
  zones (new_Game r).2 = init_zones /\
  turn (new_Game r).2 = 1 /\ active_pid (new_Game r).2 = 1.
Proof. rewrite new_Game_unfold. cbv zeta. auto. Qed.

Lemma init_zones_lookup zid :
  exists cap, init_zones !! zid = Some (Zone.mk zid cap []) /\ 0 <= cap.
Proof.
  destruct zid; eexists; (split; [vm_compute; reflexivity | lia]).
Qed.

(** ** The operations, one by one *)

Lemma reset_attacks_shape pid z :
  Zone.capacity (reset_attacks pid z) = Zone.capacity z /\
  length (Zone.units (reset_attacks pid z)) = length (Zone.units z).
Proof. unfold reset_attacks. simpl. rewrite length_fmap. auto. Qed.

Lemma run_op_morale o w w' q :
  run_op o w = Some w' ->
  PlayerState.morale (deref w'.2 q) = PlayerState.morale (deref w.2 q).
Proof.
  destruct w as [r g]. destruct o as [p n|p|p i zid|]; simpl.
  - intros [= <-]. rewrite _draw_unfold. simpl.
    destruct (ref_cases p q) as [->| ->].
    + rewrite deref_assign_same. apply draw_loop_fields.
    + apply (f_equal PlayerState.morale), deref_assign_other.
  - intros [= <-]. rewrite start_phase_unfold. cbv zeta. cbn [snd].
    rewrite deref_set_zones.
    destruct (ref_cases p q) as [->| ->].
    + rewrite deref_assign_same.
      destruct (draw_loop_fields 1 r
        (PlayerState.set_cp (Z.min 5 (PlayerState.cp (deref g p) + 2)) (deref g p)))
        as (_ & M & _).
      rewrite M. reflexivity.
    + apply (f_equal PlayerState.morale), deref_assign_other.
  - destruct (deploy_troop_from_hand g p i zid) as [[b g1]|] eqn:D; [|discriminate].
    intros [= <-]. simpl. apply deploy_inv in D. destruct D; [reflexivity|].
    destruct (ref_cases p q) as [->| ->].
    + rewrite deref_assign_same. reflexivity.
    + rewrite deref_assign_other, deref_set_zones. reflexivity.
  - intros [= <-]. simpl. rewrite deref_swap_player. reflexivity.
Qed.

Lemma run_op_cards o w w' q :
  run_op o w = Some w' -> cards_of (deref w'.2 q) ≡ₚ cards_of (deref w.2 q).
Proof using shuffle_perm.
  destruct w as [r g]. destruct o as [p n|p|p i zid|]; simpl.
  - intros [= <-]. rewrite _draw_unfold. simpl.
    destruct (ref_cases p q) as [->| ->].
    + rewrite deref_assign_same. apply draw_loop_related.
    + rewrite deref_assign_other. reflexivity.
  - intros [= <-]. rewrite start_phase_unfold. cbv zeta. cbn [snd].
    rewrite deref_set_zones.
    destruct (ref_cases p q) as [->| ->].
    + rewrite deref_assign_same.
      rewrite (dr_cards _ _ (draw_loop_related 1 r _)). reflexivity.
    + rewrite deref_assign_other. reflexivity.
  - destruct (deploy_troop_from_hand g p i zid) as [[b g1]|] eqn:D; [|discriminate].
    intros [= <-]. simpl. apply deploy_inv in D.
    destruct D as [|tc z Hi Hc Hz Hs]; [reflexivity|].
    destruct (ref_cases p q) as [->| ->].
    + rewrite deref_assign_same. unfold cards_of. simpl.
      apply Permutation_app_head.
      etransitivity;
        [|apply Permutation_app_tail; symmetry; apply (delete_Permutation _ _ _ Hc)].
      simpl. rewrite app_assoc. symmetry. apply Permutation_cons_append.
    + rewrite deref_assign_other, deref_set_zones. reflexivity.
  - intros [= <-]. simpl. rewrite deref_swap_player. reflexivity.
Qed.

Lemma run_op_capacity o w w' :
  run_op o w = Some w' -> within_capacity w.2 -> within_capacity w'.2.
Proof.
  destruct w as [r g]. destruct o as [p n|p|p i zid|]; simpl.
  - intros [= <-] H. rewrite _draw_unfold. intros k z. cbn [snd].
    rewrite zones_assign. apply H.
  - intros [= <-] H. rewrite start_phase_unfold. cbv zeta. cbn [snd].
    intros k z'. cbn [zones set_zones]. rewrite lookup_fmap.
    destruct (zones g !! k) as [z|] eqn:Hz; [|discriminate].
    intros E. apply (inj Some) in E. subst z'.
    destruct (reset_attacks_shape
      (PlayerState.pid (draw_loop 1 r
         (PlayerState.set_cp (Z.min 5 (PlayerState.cp (deref g p) + 2)) (deref g p))).2) z)
      as [E1 E2].
    rewrite E1, E2. apply (H k z Hz).
  - destruct (deploy_troop_from_hand g p i zid) as [[b g1]|] eqn:D; [|discriminate].
    intros [= <-] H. simpl. apply deploy_inv in D.
    destruct D as [|tc z Hi Hc Hz Hs]; [exact H|].
    intros k z'. rewrite zones_assign. cbn [zones set_zones].
    destruct (decide (zid = k)) as [->|N].
    + rewrite lookup_insert_eq. intros [= <-]. simpl.
      unfold Zone.has_space in Hs. apply Z.ltb_lt in Hs.
      rewrite length_app. simpl. lia.
    + rewrite lookup_insert_ne by exact N. apply H.
  - intros [= <-] H. simpl. intros k z. rewrite zones_swap_player. apply H.
Qed.

Lemma run_op_cp o w w' q :
  run_op o w = Some w' ->
  PlayerState.cp (deref w.2 q) <= 5 -> PlayerState.cp (deref w'.2 q) <= 5.
Proof.
  destruct w as [r g]. destruct o as [p n|p|p i zid|]; simpl.
  - intros [= <-]. rewrite _draw_unfold. cbn [snd].
    destruct (ref_cases p q) as [->| ->].
    + rewrite deref_assign_same.
      destruct (draw_loop_fields (Z.to_nat n) r (deref g p)) as (_ & _ & ->). auto.
    + rewrite deref_assign_other. auto.
  - intros [= <-]. rewrite start_phase_unfold. cbv zeta. cbn [snd].
    rewrite deref_set_zones.
    destruct (ref_cases p q) as [->| ->].
    + rewrite deref_assign_same.
      destruct (draw_loop_fields 1 r
        (PlayerState.set_cp (Z.min 5 (PlayerState.cp (deref g p) + 2)) (deref g p)))
        as (_ & _ & ->).
      simpl. lia.
    + rewrite deref_assign_other. auto.
  - destruct (deploy_troop_from_hand g p i zid) as [[b g1]|] eqn:D; [|discriminate].
    intros [= <-]. simpl. apply deploy_inv in D. destruct D; [auto|].
    destruct (ref_cases p q) as [->| ->].
    + rewrite deref_assign_same. auto.
    + rewrite deref_assign_other, deref_set_zones. auto.
  - intros [= <-]. simpl. rewrite deref_swap_player. auto.
Qed.

Lemma reachable_has_zones w : reachable w -> has_zones w.2.
Proof.
  induction 1 as [r|o w w' R IH H].
  - intros zid. destruct (new_Game_board r) as (-> & _).
    destruct (init_zones_lookup zid) as (cap & -> & _). eauto.
  - destruct w as [r g]. destruct o as [p n|p|p i zid|]; simpl in H.
    + injection H as <-. rewrite _draw_unfold. intros k. cbn [snd].
      rewrite zones_assign. apply IH.
    + injection H as <-. apply start_phase_has_zones, IH.
    + destruct (deploy_troop_from_hand g p i zid) as [[b g1]|] eqn:D; [|discriminate].
      injection H as <-. eapply deploy_has_zones; eauto.
    + injection H as <-. intros k. simpl. rewrite zones_swap_player. apply IH.
Qed.

(** ** The console *)

(** Lines are consumed one or three at a time. *)
Lemma lines_ind (P : list pystr -> Prop) :
  P [] ->
  (forall l rest,
     P rest -> (forall li lz rest2, rest = li :: lz :: rest2 -> P rest2) -> P (l :: rest)) ->
  forall lines, P lines.
Proof.
  intros H0 Hs lines.
  assert (forall n (ls : list pystr), (length ls <= n)%nat -> P ls) as H.
  { induction n as [|n IH]; intros ls L.
    - destruct ls; [exact H0 | simpl in L; lia].
    - destruct ls as [|l rest]; [exact H0|]. simpl in L.
      apply Hs; [apply IH; lia|].
      intros li lz rest2 ->. apply IH. simpl in L. lia. }
  apply (H (length lines)). lia.
Qed.

Lemma zone_named_front z zid : zone_named z = Some zid -> front_zone zid = false.
Proof.
  unfold zone_named. repeat case_bool_decide; intros [= <-]; reflexivity.
Qed.

(** Printing raises [KeyError] only for a missing zone, and nothing but
    [KeyError] and [ValueError]. *)
Lemma print_zones_exn zids g : forall out e,
  (print_zones zids g out).1 = Some e ->
  e = ValueError \/ (e = KeyError /\ exists zid, zones g !! zid = None).
Proof.
  induction zids as [|zid zids IH]; intros out e; cbn [print_zones]; [discriminate|].
  unfold zone. destruct (zones g !! zid) as [z|] eqn:Hz.
  2:{ intros [= <-]. right. eauto. }
  destruct (mapM unit_desc (Zone.units z)) as [descs|]; [|intros [= <-]; auto].
  match goal with |- context [fstring ?ps] => destruct (fstring ps) as [line|] end;
    [apply IH | intros [= <-]; auto].
Qed.

Lemma print_board_exn g out e :
  (print_board g out).1 = Some e ->
  e = ValueError \/ (e = KeyError /\ exists zid, zones g !! zid = None).
Proof.
  unfold print_board.
  destruct (print_zones _ g _) as [[e1|] out1] eqn:E; [|discriminate].
  intros [= <-]. eapply print_zones_exn. rewrite E. reflexivity.
Qed.

Lemma print_cards_exn cards : forall i out e,
  (print_cards i cards out).1 = Some e -> e = ValueError.
Proof.
  induction cards as [|c cards IH]; intros i out e; cbn [print_cards]; [discriminate|].
  destruct (card_extra c) as [extra|]; [|intros [= <-]; reflexivity].
  match goal with |- context [fstring ?ps] => destruct (fstring ps) as [line|] end;
    [apply IH | intros [= <-]; reflexivity].
Qed.

Lemma print_hand_exn s out e : (print_hand s out).1 = Some e -> e = ValueError.
Proof.
  unfold print_hand.
  match goal with |- context [fstring ?ps] => destruct (fstring ps) as [header|] end;
    [|intros [= <-]; reflexivity].
  destruct (print_cards 1 _ _) as [[e1|] out1] eqn:E; [|discriminate].
  intros [= <-]. eapply print_cards_exn. rewrite E. reflexivity.
Qed.

(** When every [int] can be formatted, printing raises nothing on a board
    with all its zones. *)
Lemma fstring_total ps :
  (forall z, is_Some (str_of_int lib z)) -> is_Some (fstring ps).
Proof.
  intros T. induction ps as [|[s|z] ps [t IH]]; cbn [fstring]; [eauto| |].
  - rewrite IH. simpl. eauto.
  - destruct (T z) as [s ->]. rewrite IH. simpl. eauto.
Qed.

Lemma print_zones_total zids g :
  (forall z, is_Some (str_of_int lib z)) -> has_zones g ->
  forall out, (print_zones zids g out).1 = None.
Proof.
  intros T H. induction zids as [|zid zids IH]; intros out; cbn [print_zones]; [reflexivity|].
  unfold zone. destruct (H zid) as [z ->].
  assert (is_Some (mapM unit_desc (Zone.units z))) as [descs ->].
  { apply mapM_is_Some, Forall_forall. intros u _. apply fstring_total, T. }
  match goal with |- context [fstring ?ps] => destruct (fstring_total ps T) as [line ->] end.
  apply IH.
Qed.

Lemma print_board_total g out :
  (forall z, is_Some (str_of_int lib z)) -> has_zones g -> (print_board g out).1 = None.
Proof.
  intros T H. unfold print_board.
  pose proof (print_zones_total [LEFT; CENTER; RIGHT; RESERVE; HQ; SUPPLY] g T H
                (print (newline ++ py "=== BATTLEFIELD ===") out)) as E.
  destruct (print_zones _ g _) as [[e|] out1]; [discriminate E|reflexivity].
Qed.

Lemma print_cards_total cards :
  (forall z, is_Some (str_of_int lib z)) ->
  forall i out, (print_cards i cards out).1 = None.
Proof.
  intros T. induction cards as [|c cards IH]; intros i out; cbn [print_cards]; [reflexivity|].
  assert (is_Some (card_extra c)) as [extra ->].
  { destruct c; cbn [card_extra]; [eauto|apply fstring_total, T..]. }
  match goal with |- context [fstring ?ps] => destruct (fstring_total ps T) as [line ->] end.
  apply IH.
Qed.

Lemma print_hand_total s out :
  (forall z, is_Some (str_of_int lib z)) -> (print_hand s out).1 = None.
Proof.
  intros T. unfold print_hand.
  match goal with |- context [fstring ?ps] => destruct (fstring_total ps T) as [header ->] end.
  pose proof (print_cards_total (PlayerState.hand s) T 1 (print header out)) as E.
  destruct (print_cards 1 _ _) as [[e|] out1]; [discriminate E|reflexivity].
Qed.

(** Deploys into HQ and RESERVE keep the clock and the keys of the
    dictionary, and stay within the reachable states. *)
Lemma hq_deploys_clock p g g' :
  hq_deploys p g g' -> turn g' = turn g /\ active_pid g' = active_pid g.
Proof.
  induction 1 as [g|g i zid ok g1 g2 F D _ [T A]]; [auto|].
  apply deploy_clock in D as [T1 A1]. split; congruence.
Qed.

Lemma hq_deploys_has_zones p g g' : hq_deploys p g g' -> has_zones g -> has_zones g'.
Proof.
  induction 1 as [g|g i zid ok g1 g2 F D _ IH]; [auto|].
  intros H. apply IH. eapply deploy_has_zones; eauto.
Qed.

Lemma hq_deploys_reachable p r g g' :
  hq_deploys p g g' -> reachable (r, g) -> reachable (r, g').
Proof.
  induction 1 as [g|g i zid ok g1 g2 F D _ IH]; [auto|].
  intros R. apply IH.
  apply (reach_op (OpDeploy p i zid) (r, g)); [exact R | simpl; rewrite D; reflexivity].
Qed.

(** What the loop of a turn does, however it ends: the game it leaves is
    the game it was given after some deploys into HQ and RESERVE; when it
    ends by ['end'] it has read at least one line; and on a board with all
    its zones it raises no [KeyError]. *)
Lemma main_loop_spec lines : forall g p out e g' c',
  main_loop lines g p out = (e, (g', c')) ->
  hq_deploys p g g' /\
  (e = None -> (length (stdin c') < length lines)%nat) /\
  (has_zones g -> e <> Some KeyError).
Proof.
  induction lines as [|l rest IH1 IH3] using lines_ind; intros g p out e g' c'.
  { cbn [main_loop]. intros [= <- <- <-].
    split; [constructor|]. split; [discriminate|]. intros _. discriminate. }
  cbn [main_loop]. destruct (bool_decide _).
  { intros [= <- <- <-]. split; [constructor|].
    split; [intros _; simpl; lia | intros _; discriminate]. }
  destruct (bool_decide _).
  2:{ intros H. apply IH1 in H as (D & L & K). split; [exact D|].
      split; [intros E; specialize (L E); simpl; lia | exact K]. }
  destruct rest as [|li [|lz rest2]];
    try (intros [= <- <- <-]; split; [constructor|];
         split; [discriminate | intros _; discriminate]).
  specialize (IH3 li lz rest2 eq_refl).
  assert (forall g0 out0 e0 g0' c0',
            main_loop rest2 g0 p out0 = (e0, (g0', c0')) ->
            hq_deploys p g0 g0' /\
            (e0 = None -> (length (stdin c0') < length (l :: li :: lz :: rest2))%nat) /\
            (has_zones g0 -> e0 <> Some KeyError)) as IH.
  { intros g0 out0 e0 g0' c0' H. apply IH3 in H as (D & L & K). split; [exact D|].
    split; [intros E; specialize (L E); simpl; lia | exact K]. }
  destruct (negb (str_isdigit lib (str_strip lib li))); [apply IH|].
  destruct (zone_named (str_upper lib (str_strip lib lz))) as [zid|] eqn:Z; [|apply IH].
  destruct (int_of_str lib (str_strip lib li)) as [n|].
  2:{ intros [= <- <- <-]. split; [constructor|].
      split; [discriminate | intros _; discriminate]. }
  destruct (deploy_troop_from_hand g p (n - 1) zid) as [[ok g1]|] eqn:D.
  2:{ intros [= <- <- <-]. split; [constructor|]. split; [discriminate|].
      intros H. destruct (deploy_total g p (n - 1) zid (H zid)) as [x Hx]. congruence. }
  assert (hq_deploys p g g1) as D1
    by (eapply hq_more; [eapply zone_named_front, Z | exact D | constructor]).
  assert (forall g2, hq_deploys p g1 g2 -> hq_deploys p g g2) as Dt
    by (intros g2 D2; eapply hq_more; [eapply zone_named_front, Z | exact D | exact D2]).
  destruct (print_board g1 _) as [[e1|] out4] eqn:B.
  { intros [= <- <- <-]. split; [exact D1|]. split; [discriminate|].
    intros H. pose proof (deploy_has_zones _ _ _ _ _ _ D H) as H1.
    destruct (print_board_exn g1 _ e1 ltac:(rewrite B; reflexivity)) as [->|[_ [k Hk]]];
      [discriminate|].
    destruct (H1 k) as [x Hx]. congruence. }
  destruct (print_hand (deref g1 p) out4) as [[e2|] out5] eqn:Hh.
  { intros [= <- <- <-]. split; [exact D1|]. split; [discriminate|].
    intros _. rewrite (print_hand_exn _ _ e2 ltac:(rewrite Hh; reflexivity)). discriminate. }
  intros H. apply IH in H as (D2 & L & K). split; [apply Dt, D2|].
  split; [exact L|]. intros Hz. apply K. eapply deploy_has_zones; eauto.
Qed.

(** On the lines of [ends_turn], with every [int] formattable and all zones
    on the board, the loop of a turn ends by ['end']. *)
Lemma main_loop_total lines :
  (forall z, is_Some (str_of_int lib z)) ->
  forall g p out rest,
  has_zones g -> ends_turn lines = Some rest ->
  exists g' out', main_loop lines g p out = (None, (g', mkConsole rest out')).
Proof.
  intros T. induction lines as [|l rest0 IH1 IH3] using lines_ind; intros g p out rest H.
  { discriminate. }
  cbn [main_loop ends_turn]. destruct (bool_decide _); [intros [= <-]; eauto|].
  destruct (bool_decide _); [|apply IH1, H].
  destruct rest0 as [|li [|lz rest2]]; try discriminate.
  specialize (IH3 li lz rest2 eq_refl).
  destruct (negb (str_isdigit lib (str_strip lib li))); [apply IH3, H|].
  destruct (zone_named (str_upper lib (str_strip lib lz))) as [zid|]; [|apply IH3, H].
  destruct (int_of_str lib (str_strip lib li)) as [n|]; [|discriminate].
  destruct (deploy_total g p (n - 1) zid (H zid)) as [[ok g1] D]. rewrite D.
  pose proof (deploy_has_zones _ _ _ _ _ _ D H) as H1.
  match goal with
  | |- context [print_board g1 ?o] =>
      pose proof (print_board_total g1 o T H1) as B;
      destruct (print_board g1 o) as [[e1|] out4]; [discriminate B|]
  end.
  pose proof (print_hand_total (deref g1 p) out4 T) as Hh.
  destruct (print_hand (deref g1 p) out4) as [[e2|] out5]; [discriminate Hh|].
  apply IH3, H1.
Qed.

(** A whole turn, however it ends.  Either the heading could not be
    formatted and nothing has happened, or the start phase has run, some
    deploys into HQ and RESERVE have followed, and the swap has been made
    exactly when the turn ended by ['end'], with at least one line read. *)
Lemma play_one_turn_spec r g c e r' g' c' :
  play_one_turn r g c = (e, (r', g', c')) ->
  let p := player g (active_pid g) in
  (e = Some ValueError /\ r' = r /\ g' = g /\ c' = c) \/
  (r' = (start_phase r g p).1 /\
   exists g2, hq_deploys p (start_phase r g p).2 g2 /\
     ((e = None /\ g' = swap_player g2 /\ (length (stdin c') < length (stdin c))%nat) \/
      (e <> None /\ g' = g2)) /\
     (has_zones g -> e <> Some KeyError)).
Proof.
  intros H p. unfold play_one_turn in H. fold p in H.
  match type of H with context [fstring ?ps] => destruct (fstring ps) as [header|] end.
  2:{ injection H as <- <- <- <-. left. auto. }
  right. pose proof (start_phase_has_zones r g p) as HZ.
  destruct (start_phase r g p) as [r1 g1]. cbn [fst snd] in *.
  destruct (print_board g1 _) as [[e1|] out1] eqn:B.
  { injection H as <- <- <- <-. split; [reflexivity|]. exists g1.
    split; [constructor|]. split; [right; split; [discriminate|reflexivity]|].
    intros Hz. specialize (HZ Hz).
    destruct (print_board_exn g1 _ e1 ltac:(rewrite B; reflexivity)) as [->|[_ [k Hk]]];
      [discriminate|].
    destruct (HZ k) as [x Hx]. congruence. }
  destruct (print_hand (deref g1 p) out1) as [[e2|] out2] eqn:Hh.
  { injection H as <- <- <- <-. split; [reflexivity|]. exists g1.
    split; [constructor|]. split; [right; split; [discriminate|reflexivity]|].
    intros _. rewrite (print_hand_exn _ _ e2 ltac:(rewrite Hh; reflexivity)). discriminate. }
  destruct (main_loop (stdin c) g1 p out2) as [[e3|] [g2 c2]] eqn:M;
    injection H as <- <- <- <-; split; try reflexivity; exists g2;
    destruct (main_loop_spec _ _ _ _ _ _ _ M) as (D & L & K);
    (split; [exact D|]); (split; [|intros Hz; apply K, HZ, Hz]).
  - right. split; [discriminate|reflexivity].
  - left. repeat split. apply L. reflexivity.
Qed.

Lemma play_one_turn_clock r g c w :
  play_one_turn r g c = (None, w) ->
  active_pid w.1.2 = other_pid (active_pid g) /\
  turn w.1.2 = if active_pid w.1.2 =? 1 then turn g + 1 else turn g.
Proof.
  destruct w as [[r' g'] c']. intros H.
  destruct (play_one_turn_spec _ _ _ _ _ _ _ H) as [(E & _)|(_ & g2 & D & Hc & _)];
    [discriminate E|].
  destruct Hc as [(_ & -> & _)|(N & _)]; [|contradiction].
  cbn [fst snd]. apply hq_deploys_clock in D as [T2 A2].
  pose proof (start_phase_clock r g (player g (active_pid g))) as [T A].
  destruct (swap_player_clock g2) as [A3 T3].
  rewrite T3, A3, A2, A, T2, T. split; reflexivity.
Qed.

Lemma play_one_turn_reachable r g c e w :
  reachable (r, g) -> play_one_turn r g c = (e, w) -> reachable w.1.
Proof.
  destruct w as [[r' g'] c']. intros R H. cbn [fst].
  destruct (play_one_turn_spec _ _ _ _ _ _ _ H) as [(_ & -> & -> & _)|(-> & g2 & D & Hc & _)];
    [exact R|].
  assert (reachable (start_phase r g (player g (active_pid g)))) as R1.
  { apply (reach_op (OpStartPhase (player g (active_pid g))) (r, g)); [exact R|reflexivity]. }
  destruct (start_phase r g (player g (active_pid g))) as [r1 g1]. cbn [fst snd] in *.
  pose proof (hq_deploys_reachable _ _ _ _ D R1) as R2.
  destruct Hc as [(_ & -> & _)|(_ & ->)]; [|exact R2].
  apply (reach_op OpSwap (r1, g2)); [exact R2|reflexivity].
Qed.

Lemma play_one_turn_total r g c rest :
  (forall z, is_Some (str_of_int lib z)) ->
  has_zones g -> ends_turn (stdin c) = Some rest ->
  exists r' g' out',
    play_one_turn r g c = (None, (r', g', mkConsole rest out')) /\ has_zones g'.
Proof.
  intros T H E. unfold play_one_turn.
  match goal with |- context [fstring ?ps] => destruct (fstring_total ps T) as [header ->] end.
  pose proof (start_phase_has_zones r g (player g (active_pid g)) H) as H1.
  destruct (start_phase r g (player g (active_pid g))) as [r1 g1]. cbn [snd] in H1.
  match goal with
  | |- context [print_board g1 ?o] =>
      pose proof (print_board_total g1 o T H1) as B;
      destruct (print_board g1 o) as [[e1|] out1]; [discriminate B|]
  end.
  pose proof (print_hand_total (deref g1 (player g (active_pid g))) out1 T) as Hh.
  destruct (print_hand _ out1) as [[e2|] out2]; [discriminate Hh|].
  destruct (main_loop_total (stdin c) T g1 (player g (active_pid g)) out2 rest H1 E)
    as (g2 & out' & M).
  rewrite M. exists r1, (swap_player g2), out'. split; [reflexivity|].
  intros zid. rewrite zones_swap_player.
  destruct (main_loop_spec _ _ _ _ _ _ _ M) as (D & _).
  apply (hq_deploys_has_zones _ _ _ D H1).
Qed.

(** ** The win check *)

(** C1, as the specification words it, fails: in [both_broken] both morales
    are 0, and [game_over] does not report player 1. *)
Lemma C1_both_broken_not_player_1 :
  PlayerState.morale (p1 both_broken) <= 0 /\
  PlayerState.morale (p2 both_broken) <= 0 /\
  (game_over both_broken).1 <> Some 1.
Proof. repeat split; try (simpl; lia). simpl. discriminate. Qed.

(** C1, amended: in every game in which the morale of both players is at most
    0, [game_over] reports player 2 as the winner (player 1's morale is
    tested first, and that test names player 2); being a function of the
    game, the answer is the same each time. *)
Theorem C1_both_broken_winner_is_2 (g : Game) :
  PlayerState.morale (p1 g) <= 0 ->
  PlayerState.morale (p2 g) <= 0 ->
  (game_over g).1 = Some 2.
Proof.
  intros H1 _. unfold game_over.
  destruct (Z.leb_spec (PlayerState.morale (p1 g)) 0); [reflexivity | lia].
Qed.

(** C2: whenever [game_over] names a winner, it is player 1 or 2 and the
    morale of the winner's opponent is at most 0; it names one as soon as
    some morale is at most 0; it answers [None] when both morales are
    positive; and the game after the call is the game before it. *)
Theorem C2_game_over_spec (g : Game) :
  (forall w, (game_over g).1 = Some w ->
     (w = 1 \/ w = 2) /\
     PlayerState.morale (deref g (player g (other_pid w))) <= 0) /\
  (PlayerState.morale (p1 g) <= 0 \/ PlayerState.morale (p2 g) <= 0 ->
     exists w, (game_over g).1 = Some w) /\
  (0 < PlayerState.morale (p1 g) -> 0 < PlayerState.morale (p2 g) ->
     (game_over g).1 = None) /\
  (game_over g).2 = g.
Proof.
  unfold game_over.
  destruct (Z.leb_spec (PlayerState.morale (p1 g)) 0) as [L1|L1];
    [|destruct (Z.leb_spec (PlayerState.morale (p2 g)) 0) as [L2|L2]];
    cbn [fst snd].
  all: split;
    [intros w E;
     first [discriminate E | injection E as <-; simpl; split; [auto|assumption]]|].
  all: split; [first [intros _; eexists; reflexivity | intros [?|?]; lia]|].
  all: split; [intros; first [reflexivity | lia] | reflexivity].
Qed.

(** ** Resources *)

(** C5: the start phase sets the command points of its player to
    [min 5 (cp + 2)], whatever [cp] was: the result is at most 5, 4 becomes 5
    and 5 stays 5.  The other player's points are not touched, and in every
    reachable state both players have at most 5. *)
Theorem C5_gain_resources (r : Rng) (g : Game) (p : PlayerRef) :
  let g' := (start_phase r g p).2 in
  PlayerState.cp (deref g' p) = Z.min 5 (PlayerState.cp (deref g p) + 2) /\
  PlayerState.cp (deref g' p) <= 5 /\
  (PlayerState.cp (deref g p) = 4 -> PlayerState.cp (deref g' p) = 5) /\
  (PlayerState.cp (deref g p) = 5 -> PlayerState.cp (deref g' p) = 5) /\
  PlayerState.cp (deref g' (the_other p)) = PlayerState.cp (deref g (the_other p)) /\
  (forall w q, reachable w -> PlayerState.cp (deref w.2 q) <= 5).
Proof.
  intros g'.
  assert (PlayerState.cp (deref g' p) = Z.min 5 (PlayerState.cp (deref g p) + 2)) as E.
  { subst g'. rewrite start_phase_unfold. cbv zeta. cbn [snd].
    rewrite deref_set_zones, deref_assign_same.
    destruct (draw_loop_fields 1 r
      (PlayerState.set_cp (Z.min 5 (PlayerState.cp (deref g p) + 2)) (deref g p)))
      as (_ & _ & ->).
    reflexivity. }
  rewrite E. repeat split; try lia.
  - subst g'. rewrite start_phase_unfold. cbv zeta. cbn [snd].
    rewrite deref_set_zones, deref_assign_other. reflexivity.
  - intros w q R. induction R as [r0|o w w' R IH H].
    + destruct (new_Game_player r0 q) as (_ & -> & _). lia.
    + eapply run_op_cp; eauto.
Qed.

(** ** Turns *)

(** C9: the swap that ends a turn sets the active player to [other_pid] of
    the old one (1 gives 2, 2 gives 1) and adds one to the turn counter
    exactly when the new active player is 1; a whole [play_one_turn] that
    returns changes the two in the same way.  From turn 1 with player 1
    active, one turn gives player 2 and turn 1, the next gives player 1 and
    turn 2: so it is for the swap, for any two turns that return, and the
    two turns do return, leaving the lines after their ['end'], when all
    zones are in the dictionary, every [int] can be formatted and the input
    holds the two turns. *)
Theorem C9_turn_swap :
  other_pid 1 = 2 /\ other_pid 2 = 1 /\
  (forall g, active_pid (swap_player g) = other_pid (active_pid g) /\
     turn (swap_player g) =
       if active_pid (swap_player g) =? 1 then turn g + 1 else turn g) /\
  (forall r g c w, play_one_turn r g c = (None, w) ->
     active_pid w.1.2 = other_pid (active_pid g) /\
     turn w.1.2 = if active_pid w.1.2 =? 1 then turn g + 1 else turn g) /\
  (forall g, turn g = 1 -> active_pid g = 1 ->
     active_pid (swap_player g) = 2 /\ turn (swap_player g) = 1 /\
     active_pid (swap_player (swap_player g)) = 1 /\
     turn (swap_player (swap_player g)) = 2) /\
  (forall r g c w1 w2, turn g = 1 -> active_pid g = 1 ->
     play_one_turn r g c = (None, w1) ->
     play_one_turn w1.1.1 w1.1.2 w1.2 = (None, w2) ->
     active_pid w1.1.2 = 2 /\ turn w1.1.2 = 1 /\
     active_pid w2.1.2 = 1 /\ turn w2.1.2 = 2) /\
  (forall r g c rest1 rest2,
     (forall z, is_Some (str_of_int lib z)) ->
     has_zones g -> turn g = 1 -> active_pid g = 1 ->
     ends_turn (stdin c) = Some rest1 -> ends_turn rest1 = Some rest2 ->
     exists w1 w2,
       play_one_turn r g c = (None, w1) /\
       play_one_turn w1.1.1 w1.1.2 w1.2 = (None, w2) /\
       stdin w1.2 = rest1 /\ stdin w2.2 = rest2 /\
       active_pid w1.1.2 = 2 /\ turn w1.1.2 = 1 /\
       active_pid w2.1.2 = 1 /\ turn w2.1.2 = 2).
Proof.
  assert (forall r g c w1 w2, turn g = 1 -> active_pid g = 1 ->
     play_one_turn r g c = (None, w1) ->
     play_one_turn w1.1.1 w1.1.2 w1.2 = (None, w2) ->
     active_pid w1.1.2 = 2 /\ turn w1.1.2 = 1 /\
     active_pid w2.1.2 = 1 /\ turn w2.1.2 = 2) as Two.
  { intros r g c w1 w2 T A E1 E2.
    destruct (play_one_turn_clock _ _ _ _ E1) as [A1 T1].
    destruct (play_one_turn_clock _ _ _ _ E2) as [A2 T2].
    rewrite A in A1. change (other_pid 1) with 2 in A1.
    rewrite A1 in A2, T1. change (other_pid 2) with 1 in A2.
    rewrite A2 in T2. simpl in T1, T2. repeat split; auto; lia. }
  split; [reflexivity|]. split; [reflexivity|].
  split; [apply swap_player_clock|].
  split; [intros r g c w; apply play_one_turn_clock|].
  split.
  { intros g T A.
    destruct (swap_player_clock g) as [A1 T1].
    destruct (swap_player_clock (swap_player g)) as [A2 T2].
    rewrite A in A1. change (other_pid 1) with 2 in A1.
    rewrite A1 in A2, T1. change (other_pid 2) with 1 in A2.
    rewrite A2 in T2. simpl in T1, T2. lia. }
  split; [exact Two|].
  intros r g c rest1 rest2 F Z T A I1 I2.
  destruct (play_one_turn_total r g c rest1 F Z I1) as (r1 & g1 & o1 & E1 & Z1).
  destruct (play_one_turn_total r1 g1 (mkConsole rest1 o1) rest2 F Z1 I2)
    as (r2 & g2 & o2 & E2 & Z2).
  exists (r1, g1, mkConsole rest1 o1), (r2, g2, mkConsole rest2 o2).
  split; [exact E1|]. split; [exact E2|]. split; [reflexivity|]. split; [reflexivity|].
  apply (Two r g c _ _ T A E1 E2).
Qed.

(** ** Zones *)

(** C3: every zone of a new game holds at most its capacity, every operation
    (draw, start phase, deploy, swap) keeps it so, hence so does every
    reachable state; [has_space] is true exactly when the zone holds fewer
    units than its capacity; a deploy that succeeds appends one unit to a
    zone that had space and a deploy that fails leaves the zones alone. *)
Theorem C3_zone_capacity :
  (forall r, within_capacity (new_Game r).2) /\
  (forall o w w', run_op o w = Some w' -> within_capacity w.2 -> within_capacity w'.2) /\
  (forall w, reachable w -> within_capacity w.2) /\
  (forall z, Zone.has_space z = true <->
             Z.of_nat (length (Zone.units z)) < Zone.capacity z) /\
  (forall g p i zid g', deploy_troop_from_hand g p i zid = Some (true, g') ->
     exists z u, zones g !! zid = Some z /\ Zone.has_space z = true /\
       zones g' = <[zid := Zone.set_units (Zone.units z ++ [u]) z]> (zones g)) /\
  (forall g p i zid g', deploy_troop_from_hand g p i zid = Some (false, g') ->
     zones g' = zones g).
Proof.
  assert (forall r, within_capacity (new_Game r).2) as Hnew.
  { intros r zid z. destruct (new_Game_board r) as (-> & _).
    destruct (init_zones_lookup zid) as (cap & -> & Hcap).
    intros [= <-]. simpl. lia. }
  split; [exact Hnew|].
  split; [intros o w w'; apply run_op_capacity|].
  split.
  { induction 1 as [r|o w w' R IH H]; [apply Hnew|].
    eapply run_op_capacity; eauto. }
  split; [intros z; unfold Zone.has_space; apply Z.ltb_lt|].
  split.
  - intros g p i zid g' D. apply deploy_inv in D.
    inversion D as [|tc z Hi Hc Hz Hs]; subst.
    eexists z, _. rewrite zones_assign. simpl. repeat split; eauto.
  - intros g p i zid g' D. apply deploy_inv in D.
    inversion D; subst. reflexivity.
Qed.

(** ** Cards *)

(** C4: after [Game()] the deck, hand and discard of each player hold,
    together, exactly two copies of the base deck; each operation (draw,
    start phase, a deploy that succeeds or fails, swap) leaves the cards of
    each player, counted over deck, hand and discard with their
    multiplicities, as they were; so every reachable state still holds the
    thirty cards of each player, none twice and none lost. *)
Theorem C4_cards_conserved :
  (forall r q, cards_of (deref (new_Game r).2 q) ≡ₚ base_deck ++ base_deck) /\
  (forall o w w' q, run_op o w = Some w' ->
     cards_of (deref w'.2 q) ≡ₚ cards_of (deref w.2 q)) /\
  (forall w q, reachable w ->
     cards_of (deref w.2 q) ≡ₚ base_deck ++ base_deck /\
     (length (PlayerState.deck (deref w.2 q)) + length (PlayerState.hand (deref w.2 q))
        + length (PlayerState.discard (deref w.2 q)) = 30)%nat).
Proof using shuffle_perm.
  split; [apply new_Game_cards|].
  split; [intros o w w' q; apply run_op_cards|].
  intros w q R.
  assert (cards_of (deref w.2 q) ≡ₚ base_deck ++ base_deck) as H.
  { induction R as [r|o w w' R IH H]; [apply new_Game_cards|].
    rewrite (run_op_cards _ _ _ q H). exact IH. }
  split; [exact H|].
  apply Permutation_length in H. unfold cards_of in H.
  rewrite !length_app in H. simpl in H. lia.
Qed.

(** ** Morale *)

(** C10: [Game()] gives both players morale 25, no operation changes the
    morale of either player, so in every reachable state both morales are 25
    and [game_over] names no winner; the same holds after any whole turn of
    the demo loop played from a reachable state, however the turn ends. *)
Theorem C10_morale_never_changes :
  (forall r q, PlayerState.morale (deref (new_Game r).2 q) = 25) /\
  (forall o w w' q, run_op o w = Some w' ->
     PlayerState.morale (deref w'.2 q) = PlayerState.morale (deref w.2 q)) /\
  (forall w q, reachable w -> PlayerState.morale (deref w.2 q) = 25) /\
  (forall w, reachable w -> (game_over w.2).1 = None) /\
  (forall r g c e w, reachable (r, g) -> play_one_turn r g c = (e, w) ->
     (game_over w.1.2).1 = None).
Proof.
  assert (forall w q, reachable w -> PlayerState.morale (deref w.2 q) = 25) as Hm.
  { intros w q R. induction R as [r|o w w' R IH H].
    - apply new_Game_player.
    - rewrite (run_op_morale _ _ _ q H). exact IH. }
  assert (forall w, reachable w -> (game_over w.2).1 = None) as Hg.
  { intros w R. unfold game_over.
    pose proof (Hm w P1 R) as M1. pose proof (Hm w P2 R) as M2. simpl in M1, M2.
    rewrite M1, M2. reflexivity. }
  split; [intros r q; apply new_Game_player|].
  split; [intros o w w' q; apply run_op_morale|].
  split; [exact Hm|]. split; [exact Hg|].
  intros r g c e w R E. apply (Hg w.1). eapply play_one_turn_reachable; eauto.
Qed.

(** ** Drawing *)

(** The three ways one iteration of the draw loop can go. *)
Lemma draw_body_cases r p :
  (exists d c, PlayerState.deck p = d ++ [c] /\
     draw_body r p =
       (r, PlayerState.set_hand (PlayerState.hand p ++ [c]) (PlayerState.set_deck d p))) \/
  (exists d c, PlayerState.deck p = [] /\ d ++ [c] ≡ₚ PlayerState.discard p /\
     (draw_body r p).2 =
       PlayerState.set_hand (PlayerState.hand p ++ [c])
         (PlayerState.set_deck d (PlayerState.set_discard [] p))) \/
  (PlayerState.deck p = [] /\ PlayerState.discard p = [] /\ (draw_body r p).2 = p).
Proof using shuffle_perm.
  destruct (pop (PlayerState.deck p)) as [[d c]|] eqn:P.
  - apply pop_Some in P. left. exists d, c. split; [exact P|].
    apply draw_body_nonempty, P.
  - apply pop_None in P. right.
    pose proof (shuffle_perm r (PlayerState.discard p)) as H.
    destruct (pop (shuffle r (PlayerState.discard p)).2) as [[d c]|] eqn:Q.
    + apply pop_Some in Q. left. exists d, c. split; [exact P|].
      split; [rewrite <- Q; exact H|].
      rewrite (draw_body_reshuffle r p d c P Q). reflexivity.
    + apply pop_None in Q. rewrite Q in H. apply Permutation_nil_l in H.
      right. split; [exact P|]. split; [auto|]. apply draw_body_exhausted; auto.
Qed.

Ltac player_fields :=
  cbn [fst snd PlayerState.pid PlayerState.morale PlayerState.cp PlayerState.deck
       PlayerState.hand PlayerState.discard PlayerState.set_cp PlayerState.set_deck
       PlayerState.set_hand PlayerState.set_discard].

Ltac player_fields_in H :=
  cbn [fst snd PlayerState.pid PlayerState.morale PlayerState.cp PlayerState.deck
       PlayerState.hand PlayerState.discard PlayerState.set_cp PlayerState.set_deck
       PlayerState.set_hand PlayerState.set_discard] in H.

Lemma draw_body_count r p :
  let avail := (length (PlayerState.deck p) + length (PlayerState.discard p))%nat in
  length (PlayerState.hand (draw_body r p).2)
    = (length (PlayerState.hand p) + Nat.min 1 avail)%nat /\
  (length (PlayerState.deck (draw_body r p).2)
   + length (PlayerState.discard (draw_body r p).2))%nat
    = (avail - Nat.min 1 avail)%nat.
Proof using shuffle_perm.
  intros avail. subst avail.
  destruct (draw_body_cases r p) as [(d & c & E & ->)|[(d & c & E & Hp & ->)|(E & D & ->)]].
  - player_fields. rewrite E, !length_app. cbn [length]. lia.
  - apply Permutation_length in Hp. rewrite length_app in Hp. cbn [length] in Hp.
    player_fields. rewrite E, !length_app. cbn [length]. lia.
  - rewrite E, D. cbn [length]. lia.
Qed.

Lemma draw_loop_count k : forall r p,
  let avail := (length (PlayerState.deck p) + length (PlayerState.discard p))%nat in
  length (PlayerState.hand (draw_loop k r p).2)
    = (length (PlayerState.hand p) + Nat.min k avail)%nat /\
  (length (PlayerState.deck (draw_loop k r p).2)
   + length (PlayerState.discard (draw_loop k r p).2))%nat
    = (avail - Nat.min k avail)%nat.
Proof using shuffle_perm.
  induction k as [|k IH]; intros r p avail; subst avail; cbn [draw_loop].
  { cbn [snd]. lia. }
  pose proof (draw_body_count r p) as [H1 H2].
  destruct (draw_body r p) as [r1 q]. cbn [snd] in H1, H2.
  destruct (IH r1 q) as [I1 I2]. cbv zeta in H1, H2, I1, I2.
  rewrite I1, I2, H1, H2. lia.
Qed.

Lemma draw_loop_exhausted k : forall r p,
  PlayerState.deck p = [] -> PlayerState.discard p = [] -> (draw_loop k r p).2 = p.
Proof using shuffle_perm.
  induction k as [|k IH]; intros r p E D; simpl; [reflexivity|].
  pose proof (draw_body_exhausted r p E D) as H.
  destruct (draw_body r p) as [r1 q]. simpl in H. subst q. apply IH; assumption.
Qed.

Lemma _draw_one r g p :
  _draw r g p 1 = ((draw_body r (deref g p)).1, assign p (draw_body r (deref g p)).2 g).
Proof.
  rewrite _draw_unfold. change (Z.to_nat 1) with 1%nat. simpl.
  destruct (draw_body r (deref g p)). reflexivity.
Qed.

(** C6: [_draw(p, n)] makes [n] single attempts, one after the other (none
    when [n <= 0]).  An attempt on a deck that is not empty moves its last
    card to the end of the hand: the deck is left without it, the discard
    and the random source are as before.  An attempt on an empty deck with
    a discard that is not empty shuffles the discard: the last card of the
    shuffled cards goes to the end of the hand, the others are the deck and
    the discard is empty.  With deck and discard both empty the game is
    left as it is, for every [n].  In all, the hand gets at its end as many
    cards as were asked for, or all that deck and discard had if that is
    fewer; when the deck holds at least [n] cards these are its top [n],
    topmost first, and the rest of the deck stays.  The id, morale and
    command points of the player, the other player, the zones, the clock
    and the table of neighbours are never touched. *)
Theorem C6_draw_spec (r : Rng) (g : Game) (p : PlayerRef) :
  let s := deref g p in
  (forall n, 0 <= n ->
     _draw r g p (n + 1) = _draw (_draw r g p 1).1 (_draw r g p 1).2 p n) /\
  (forall n, n <= 0 -> _draw r g p n = (r, g)) /\
  (forall d c, PlayerState.deck s = d ++ [c] ->
     (_draw r g p 1).1 = r /\
     PlayerState.hand (deref (_draw r g p 1).2 p) = PlayerState.hand s ++ [c] /\
     PlayerState.deck (deref (_draw r g p 1).2 p) = d /\
     PlayerState.discard (deref (_draw r g p 1).2 p) = PlayerState.discard s) /\
  (PlayerState.deck s = [] -> PlayerState.discard s <> [] ->
     exists d c,
       (shuffle r (PlayerState.discard s)).2 = d ++ [c] /\
       d ++ [c] ≡ₚ PlayerState.discard s /\
       (_draw r g p 1).1 = (shuffle r (PlayerState.discard s)).1 /\
       PlayerState.hand (deref (_draw r g p 1).2 p) = PlayerState.hand s ++ [c] /\
       PlayerState.deck (deref (_draw r g p 1).2 p) = d /\
       PlayerState.discard (deref (_draw r g p 1).2 p) = []) /\
  (PlayerState.deck s = [] -> PlayerState.discard s = [] ->
     forall n, (_draw r g p n).2 = g) /\
  (forall n, exists cs,
     PlayerState.hand (deref (_draw r g p n).2 p) = PlayerState.hand s ++ cs /\
     length cs =
       Nat.min (Z.to_nat n)
         (length (PlayerState.deck s) + length (PlayerState.discard s)) /\
     (length (PlayerState.deck (deref (_draw r g p n).2 p))
      + length (PlayerState.discard (deref (_draw r g p n).2 p))
      = length (PlayerState.deck s) + length (PlayerState.discard s) - length cs)%nat) /\
  (forall n, 0 <= n <= Z.of_nat (length (PlayerState.deck s)) ->
     let k := (length (PlayerState.deck s) - Z.to_nat n)%nat in
     (_draw r g p n).1 = r /\
     PlayerState.hand (deref (_draw r g p n).2 p)
       = PlayerState.hand s ++ rev (drop k (PlayerState.deck s)) /\
     PlayerState.deck (deref (_draw r g p n).2 p) = take k (PlayerState.deck s) /\
     PlayerState.discard (deref (_draw r g p n).2 p) = PlayerState.discard s) /\
  (forall n,
     PlayerState.pid (deref (_draw r g p n).2 p) = PlayerState.pid s /\
     PlayerState.morale (deref (_draw r g p n).2 p) = PlayerState.morale s /\
     PlayerState.cp (deref (_draw r g p n).2 p) = PlayerState.cp s /\
     deref (_draw r g p n).2 (the_other p) = deref g (the_other p) /\
     zones (_draw r g p n).2 = zones g /\ adj (_draw r g p n).2 = adj g /\
     turn (_draw r g p n).2 = turn g /\ active_pid (_draw r g p n).2 = active_pid g).
Proof using shuffle_perm.
  intros s.
  split.
  { intros n Hn. rewrite _draw_one. cbn [fst snd]. rewrite !_draw_unfold.
    rewrite deref_assign_same, assign_assign.
    replace (Z.to_nat (n + 1)) with (S (Z.to_nat n)) by lia.
    simpl. fold s. destruct (draw_body r s) as [r1 q]. reflexivity. }
  split.
  { intros n Hn. rewrite _draw_unfold.
    replace (Z.to_nat n) with 0%nat by lia. simpl. rewrite assign_deref. reflexivity. }
  split.
  { intros d c E. rewrite _draw_one. fold s.
    rewrite (draw_body_nonempty r s d c E). cbn [fst snd].
    rewrite deref_assign_same. repeat split. }
  split.
  { intros E D.
    pose proof (shuffle_perm r (PlayerState.discard s)) as H.
    destruct (pop (shuffle r (PlayerState.discard s)).2) as [[d c]|] eqn:P.
    - apply pop_Some in P. exists d, c. split; [exact P|].
      split; [rewrite <- P; exact H|].
      rewrite _draw_one. fold s. rewrite (draw_body_reshuffle r s d c E P).
      cbn [fst snd]. rewrite deref_assign_same. repeat split.
    - apply pop_None in P. rewrite P in H. apply Permutation_nil_l in H.
      destruct (D (eq_sym H)). }
  split.
  { intros E D n. rewrite _draw_unfold. cbn [snd]. fold s.
    rewrite draw_loop_exhausted by assumption. apply assign_deref. }
  split.
  { intros n. rewrite _draw_unfold. cbn [snd]. rewrite deref_assign_same. fold s.
    destruct (draw_loop_hand (Z.to_nat n) r s) as (cs & Hc & _).
    destruct (draw_loop_count (Z.to_nat n) r s) as [H1 H2]. cbv zeta in H1, H2.
    exists cs. split; [exact Hc|].
    rewrite Hc, length_app in H1.
    assert (length cs = Nat.min (Z.to_nat n)
              (length (PlayerState.deck s) + length (PlayerState.discard s))) as L by lia.
    split; [exact L|]. rewrite H2, L. reflexivity. }
  split.
  { intros n Hn k. rewrite _draw_unfold. fold s.
    rewrite draw_loop_from_deck by lia. cbn [fst snd].
    rewrite deref_assign_same. repeat split. }
  intros n. rewrite _draw_unfold. cbn [snd].
  rewrite deref_assign_same, deref_assign_other, zones_assign. fold s.
  destruct (draw_loop_fields (Z.to_nat n) r s) as (A & B & C).
  repeat split; auto; destruct p; reflexivity.
Qed.

(** ** Deploying *)

(** C7: if the hand index is out of bounds, or the card at the index is not
    a [TroopCard], or the target zone has no space, then
    [deploy_troop_from_hand] returns [False] and the game (hence the hand,
    the discard and the units of the target zone) is exactly what it was. *)
Theorem C7_deploy_failure (g : Game) (p : PlayerRef) (i : Z) (zid : ZoneId) :
  (i < 0 \/ Z.of_nat (length (PlayerState.hand (deref g p))) <= i) \/
  (exists c, PlayerState.hand (deref g p) !! Z.to_nat i = Some c /\
             isinstance_TroopCard c = false) \/
  (exists z, zones g !! zid = Some z /\ Zone.has_space z = false) ->
  deploy_troop_from_hand g p i zid = Some (false, g).
Proof.
  intros H. unfold deploy_troop_from_hand, zone.
  destruct ((i <? 0) || (Z.of_nat (length (PlayerState.hand (deref g p))) <=? i)) eqn:B;
    [reflexivity|].
  apply orb_false_iff in B as [B1 B2].
  apply Z.ltb_ge in B1. apply Z.leb_gt in B2.
  destruct H as [H|[(c & Hc & T)|(z & Hz & S)]]; [lia| |].
  - rewrite Hc. destruct c; [reflexivity|discriminate|reflexivity|reflexivity].
  - destruct (lookup_lt_is_Some_2 (PlayerState.hand (deref g p)) (Z.to_nat i)) as [c ->];
      [lia|].
    destruct c; try reflexivity. rewrite Hz, S. reflexivity.
Qed.

(** C8: with the hand index in bounds, a [TroopCard] at that index and space
    in the target zone, [deploy_troop_from_hand] returns [True]; the target
    zone gets one more unit at its end, made of the card, owned by the
    player, placed in the target zone, with the card's cohesion and maximal
    ammunition and with [attacked_this_turn] false; the other zones are
    unchanged; the card leaves the hand at the index and is appended to the
    discard, so the hand is one shorter and the discard one longer; the deck
    and the other player are unchanged. *)
Theorem C8_deploy_success (g : Game) (p : PlayerRef) (i : Z) (zid : ZoneId)
    (tc : TroopCard.t) (z : Zone.t) :
  0 <= i < Z.of_nat (length (PlayerState.hand (deref g p))) ->
  PlayerState.hand (deref g p) !! Z.to_nat i = Some (IsTroopCard tc) ->
  zones g !! zid = Some z ->
  Zone.has_space z = true ->
  exists g',
    deploy_troop_from_hand g p i zid = Some (true, g') /\
    zones g' !! zid =
      Some (Zone.mk (Zone.id z) (Zone.capacity z)
              (Zone.units z ++
                 [Unit.mk tc (PlayerState.pid (deref g p)) zid
                    (TroopStats.coh (TroopCard.stats tc))
                    (TroopStats.max_ammo (TroopCard.stats tc)) false])) /\
    (forall k, k <> zid -> zones g' !! k = zones g !! k) /\
    PlayerState.hand (deref g' p) = delete (Z.to_nat i) (PlayerState.hand (deref g p)) /\
    PlayerState.discard (deref g' p) = PlayerState.discard (deref g p) ++ [IsTroopCard tc] /\
    (length (PlayerState.hand (deref g' p)) + 1 = length (PlayerState.hand (deref g p)))%nat /\
    (length (PlayerState.discard (deref g' p)) = length (PlayerState.discard (deref g p)) + 1)%nat /\
    PlayerState.deck (deref g' p) = PlayerState.deck (deref g p) /\
    deref g' (the_other p) = deref g (the_other p).
Proof.
  intros Hi Hc Hz Hs.
  destruct (deploy_total g p i zid) as [[b g'] D]; [eauto|].
  exists g'. pose proof (deploy_inv _ _ _ _ _ _ D) as O.
  unfold deploy_troop_from_hand, zone in D.
  destruct ((i <? 0) || (Z.of_nat (length (PlayerState.hand (deref g p))) <=? i)) eqn:B.
  { apply orb_true_iff in B as [B|B]; [apply Z.ltb_lt in B|apply Z.leb_le in B]; lia. }
  rewrite Hc, Hz, Hs in D. simpl in D. injection D as <- <-.
  split; [unfold deploy_troop_from_hand, zone; rewrite B, Hc, Hz, Hs; reflexivity|].
  rewrite zones_assign, deref_assign_same, deref_assign_other, deref_set_zones.
  cbn [zones set_zones PlayerState.hand PlayerState.discard PlayerState.deck
       PlayerState.set_hand PlayerState.set_discard].
  split; [apply lookup_insert_eq|].
  split; [intros k N; apply lookup_insert_ne; congruence|].
  split; [reflexivity|]. split; [reflexivity|].
  split.
  { rewrite length_delete by eauto.
    assert (0 < length (PlayerState.hand (deref g p)))%nat by lia. lia. }
  split; [rewrite length_app; reflexivity|]. split; reflexivity.
Qed.

(** ** The effect of an operation on a player and on the zones *)

(** What every iteration keeps, the whole loop keeps. *)
Lemma draw_loop_keeps (I : PlayerState.t -> Prop) :
  (forall r p, I p -> I (draw_body r p).2) ->
  forall k r p, I p -> I (draw_loop k r p).2.
Proof.
  intros Hb. induction k as [|k IH]; intros r p Hp; simpl; [exact Hp|].
  specialize (Hb r p Hp). destruct (draw_body r p) as [r1 q]. apply IH, Hb.
Qed.

Lemma run_op_player o w w' q :
  run_op o w = Some w' -> player_step (deref w.2 q) (deref w'.2 q).
Proof.
  destruct w as [r g]. destruct o as [p n|p|p i zid|]; simpl.
  - intros [= <-]. rewrite _draw_unfold. cbn [snd].
    destruct (ref_cases p q) as [->| ->].
    + rewrite deref_assign_same. constructor.
    + rewrite deref_assign_other. constructor.
  - intros [= <-]. rewrite start_phase_unfold. cbv zeta. cbn [snd].
    rewrite deref_set_zones.
    destruct (ref_cases p q) as [->| ->].
    + rewrite deref_assign_same. constructor.
    + rewrite deref_assign_other. constructor.
  - destruct (deploy_troop_from_hand g p i zid) as [[b g1]|] eqn:D; [|discriminate].
    intros [= <-]. simpl. apply deploy_inv in D.
    destruct D as [|tc z Hi Hc Hz Hs]; [constructor|].
    destruct (ref_cases p q) as [->| ->].
    + rewrite deref_assign_same. apply player_deploys; [lia | exact Hc].
    + rewrite deref_assign_other, deref_set_zones. constructor.
  - intros [= <-]. simpl. rewrite deref_swap_player. constructor.
Qed.

Lemma run_op_zones o w w' :
  run_op o w = Some w' -> zones_step w.2 (zones w'.2).
Proof.
  destruct w as [r g]. destruct o as [p n|p|p i zid|]; simpl.
  - intros [= <-]. rewrite _draw_unfold. cbn [snd]. rewrite zones_assign. constructor.
  - intros [= <-]. rewrite start_phase_unfold. cbv zeta. cbn [snd zones set_zones].
    constructor.
  - destruct (deploy_troop_from_hand g p i zid) as [[b g1]|] eqn:D; [|discriminate].
    intros [= <-]. simpl. apply deploy_inv in D.
    destruct D as [|tc z Hi Hc Hz Hs]; [constructor|].
    rewrite zones_assign. cbn [zones set_zones].
    eapply zones_deploy; eauto. eapply list_elem_of_lookup_2, Hc.
  - intros [= <-]. simpl. rewrite zones_swap_player. constructor.
Qed.

(** The board, the clock and the table of neighbours under an operation. *)
Lemma run_op_adj o w w' : run_op o w = Some w' -> adj w'.2 = adj w.2.
Proof.
  destruct w as [r g]. destruct o as [p n|p|p i zid|]; simpl.
  - intros [= <-]. rewrite _draw_unfold. destruct p; reflexivity.
  - intros [= <-]. rewrite start_phase_unfold. destruct p; reflexivity.
  - destruct (deploy_troop_from_hand g p i zid) as [[b g1]|] eqn:D; [|discriminate].
    intros [= <-]. apply deploy_inv in D. destruct D; destruct p; reflexivity.
  - intros [= <-]. unfold swap_player. simpl. destruct (_ =? 1); reflexivity.
Qed.

(** ** More on the constructor and on drawing *)

Lemma reachable_player_keeps (I : PlayerRef -> PlayerState.t -> Prop) :
  (forall r q, I q (deref (new_Game r).2 q)) ->
  (forall q s s', I q s -> player_step s s' -> I q s') ->
  forall w q, reachable w -> I q (deref w.2 q).
Proof.
  intros Hnew Hstep w q R. induction R as [r|o w w' R IH H]; [apply Hnew|].
  eapply Hstep; [exact IH|]. eapply run_op_player, H.
Qed.

Lemma shuffled_base_length r :
  length (shuffle r (base_deck ++ base_deck)).2 = 30%nat.
Proof using shuffle_perm.
  rewrite (Permutation_length (shuffle_perm r (base_deck ++ base_deck))). reflexivity.
Qed.

Lemma deal_five r d pid :
  length d = 30%nat ->
  let s' := (draw_loop 5 r (PlayerState.mk pid 25 0 d [] [])).2 in
  PlayerState.deck s' ++ rev (PlayerState.hand s') = d /\
  length (PlayerState.hand s') = 5%nat /\
  length (PlayerState.deck s') = 25%nat /\
  PlayerState.discard s' = [].
Proof.
  intros L s'. subst s'.
  rewrite draw_loop_from_deck by (simpl; lia).
  cbn [snd PlayerState.deck PlayerState.hand PlayerState.discard
       PlayerState.set_hand PlayerState.set_deck app].
  rewrite rev_involutive, take_drop, length_rev, length_drop, length_take, L.
  repeat split; lia.
Qed.

(** X1: [Game()] deals to each player the five top cards of that player's
    shuffled deck, the topmost first: the hand has 5 cards, the deck keeps
    the other 25 in their order and the discard is empty. *)
Theorem X1_new_game_deal (r : Rng) :
  let sh1 := shuffle r (base_deck ++ base_deck) in
  let sh2 := shuffle sh1.1 (base_deck ++ base_deck) in
  let g := (new_Game r).2 in
  PlayerState.deck (p1 g) ++ rev (PlayerState.hand (p1 g)) = sh1.2 /\
  PlayerState.deck (p2 g) ++ rev (PlayerState.hand (p2 g)) = sh2.2 /\
  (forall q, length (PlayerState.hand (deref g q)) = 5%nat /\
             length (PlayerState.deck (deref g q)) = 25%nat /\
             PlayerState.discard (deref g q) = []).
Proof using shuffle_perm.
  intros sh1 sh2 g. subst g. rewrite new_Game_unfold. cbv zeta. fold sh1. fold sh2.
  cbn [snd p1 p2].
  pose proof (deal_five sh2.1 sh1.2 1 (shuffled_base_length r)) as (A1 & A2 & A3 & A4).
  pose proof (deal_five
    (draw_loop 5 sh2.1 (PlayerState.mk 1 25 0 sh1.2 [] [])).1 sh2.2 2
    (shuffled_base_length sh1.1)) as (B1 & B2 & B3 & B4).
  split; [exact A1|]. split; [exact B1|].
  intros q. destruct q; cbn [deref p1 p2]; auto.
Qed.

Lemma reachable_cards w q :
  reachable w -> cards_of (deref w.2 q) ≡ₚ base_deck ++ base_deck.
Proof using shuffle_perm.
  induction 1 as [r|o w w' R IH H]; [apply new_Game_cards|].
  rewrite (run_op_cards _ _ _ q H). exact IH.
Qed.

(** X2: in every reachable state each card of a deck, a hand or a discard
    is one of the cards of the catalog; so none is a plain [Card], and a
    card is a [TroopCard] exactly when its [kind] is [TROOP]. *)
Theorem X2_cards_from_catalog (w : Rng * Game) (q : PlayerRef) (c : card) :
  reachable w ->
  c ∈ cards_of (deref w.2 q) ->
  c ∈ base_deck /\
  (forall b, c <> IsCard b) /\
  (isinstance_TroopCard c = true <-> card_kind c = TROOP).
Proof using shuffle_perm.
  intros R Hc. rewrite (reachable_cards w q R) in Hc.
  apply elem_of_app in Hc.
  assert (c ∈ base_deck) as Hb by (destruct Hc; assumption).
  split; [exact Hb|].
  assert (Forall (fun c => (forall b, c <> IsCard b) /\
                           (isinstance_TroopCard c = true <-> card_kind c = TROOP))
            base_deck) as F.
  { unfold base_deck. repeat constructor; try (intros b; discriminate);
      simpl; intros E; first [reflexivity | discriminate E]. }
  rewrite Forall_forall in F. apply F, Hb.
Qed.

Lemma draw_body_discard r p :
  PlayerState.discard (draw_body r p).2 = PlayerState.discard p \/
  PlayerState.discard (draw_body r p).2 = [].
Proof.
  unfold draw_body.
  destruct (PlayerState.deck p) as [|x l0];
    [destruct (shuffle r (PlayerState.discard p)) as [r' d]|];
    cbv beta iota zeta;
    match goal with |- context [pop ?l] => destruct (pop l) as [[? c]|] end;
    simpl; auto.
Qed.

Lemma player_step_discard s s' :
  player_step s s' ->
  Forall (fun c => isinstance_TroopCard c = true) (PlayerState.discard s) ->
  Forall (fun c => isinstance_TroopCard c = true) (PlayerState.discard s').
Proof.
  assert (forall r p,
    Forall (fun c => isinstance_TroopCard c = true) (PlayerState.discard p) ->
    Forall (fun c => isinstance_TroopCard c = true)
      (PlayerState.discard (draw_body r p).2)) as Hb.
  { intros r p H. destruct (draw_body_discard r p) as [-> | ->]; [exact H|constructor]. }
  intros S H. destruct S as [|k r|r|i tc Hi Hc].
  - exact H.
  - apply (draw_loop_keeps _ Hb), H.
  - apply (draw_loop_keeps _ Hb). exact H.
  - simpl. apply Forall_app. split; [exact H|]. constructor; [reflexivity|constructor].
Qed.

(** X3: in every reachable state the discard of each player holds troop
    cards only: nothing but a deploy puts a card there. *)
Theorem X3_discard_holds_troops (w : Rng * Game) (q : PlayerRef) :
  reachable w ->
  Forall (fun c => isinstance_TroopCard c = true) (PlayerState.discard (deref w.2 q)).
Proof.
  intros R.
  apply (reachable_player_keeps
    (fun _ s => Forall (fun c => isinstance_TroopCard c = true) (PlayerState.discard s)));
    [| |exact R].
  - clear. intros r q. rewrite new_Game_unfold. cbv zeta.
    destruct q; cbn [snd deref p1 p2];
      apply (draw_loop_keeps
        (fun s => Forall (fun c => isinstance_TroopCard c = true) (PlayerState.discard s)));
      try constructor;
      intros r0 p H; (destruct (draw_body_discard r0 p) as [-> | ->]; [exact H|constructor]).
  - intros _ s s' H S. eapply player_step_discard; eauto.
Qed.

Lemma filter_delete_other {A} (P : A -> Prop) `{forall x, Decision (P x)}
    (l : list A) (i : nat) (x : A) :
  l !! i = Some x -> ~ P x -> filter P (delete i l) = filter P l.
Proof.
  intros Hl Hx. rewrite delete_take_drop.
  rewrite <- (take_drop_middle l i x Hl) at 3.
  rewrite !filter_app, filter_cons_False by exact Hx. reflexivity.
Qed.

Lemma player_step_keeps_other_cards s s' :
  player_step s s' ->
  filter (fun c => isinstance_TroopCard c = false) (PlayerState.hand s)
    `prefix_of`
  filter (fun c => isinstance_TroopCard c = false) (PlayerState.hand s').
Proof.
  intros S. destruct S as [|k r|r|i tc Hi Hc].
  - reflexivity.
  - destruct (draw_loop_hand k r s) as (cs & -> & _).
    rewrite filter_app. apply prefix_app_r. reflexivity.
  - destruct (draw_loop_hand 1 r
      (PlayerState.set_cp (Z.min 5 (PlayerState.cp s + 2)) s)) as (cs & -> & _).
    simpl. rewrite filter_app. apply prefix_app_r. reflexivity.
  - simpl. rewrite (filter_delete_other _ _ _ _ Hc) by (simpl; discriminate).
    reflexivity.
Qed.

(** X4: no operation takes a card that is not a troop card out of a hand:
    the cards of a hand that are not troop cards are, in their order, a
    prefix of those of the hand after the operation. *)
Theorem X4_other_cards_stay_in_hand (o : Op) (w w' : Rng * Game) (q : PlayerRef) :
  run_op o w = Some w' ->
  filter (fun c => isinstance_TroopCard c = false) (PlayerState.hand (deref w.2 q))
    `prefix_of`
  filter (fun c => isinstance_TroopCard c = false) (PlayerState.hand (deref w'.2 q)).
Proof.
  intros H. apply player_step_keeps_other_cards. eapply run_op_player, H.
Qed.

(** X5: [_draw(p, n)] moves to the hand as many cards as it is asked for,
    as long as deck and discard together have them: the hand grows by the
    smaller of [n] (0 when [n] is negative) and the number of cards in deck
    and discard, and deck and discard together shrink by as much. *)
Theorem X5_draw_count (r : Rng) (g : Game) (p : PlayerRef) (n : Z) :
  let s := deref g p in
  let s' := deref (_draw r g p n).2 p in
  let avail := (length (PlayerState.deck s) + length (PlayerState.discard s))%nat in
  length (PlayerState.hand s')
    = (length (PlayerState.hand s) + Nat.min (Z.to_nat n) avail)%nat /\
  (length (PlayerState.deck s') + length (PlayerState.discard s'))%nat
    = (avail - Nat.min (Z.to_nat n) avail)%nat.
Proof using shuffle_perm.
  intros s s' avail. subst s'. rewrite _draw_unfold. cbn [snd].
  rewrite deref_assign_same. apply draw_loop_count.
Qed.

(** ** Units and zones *)

(** X6: the start phase of a player keeps every zone with its id, its
    capacity and its units in their places, each unit with its card, owner,
    zone, cohesion and ammunition; it lowers the attack flag of the units
    whose owner is the player's [pid] and leaves the flag of all others as
    it was. *)
Theorem X6_start_phase_units (r : Rng) (g : Game) (p : PlayerRef) (zid : ZoneId) :
  let pid := PlayerState.pid (deref g p) in
  let g' := (start_phase r g p).2 in
  (zones g !! zid = None -> zones g' !! zid = None) /\
  (forall z, zones g !! zid = Some z ->
     exists z', zones g' !! zid = Some z' /\
       Zone.id z' = Zone.id z /\ Zone.capacity z' = Zone.capacity z /\
       length (Zone.units z') = length (Zone.units z) /\
       forall k u, Zone.units z !! k = Some u ->
         exists u', Zone.units z' !! k = Some u' /\
           Unit.card u' = Unit.card u /\ Unit.owner u' = Unit.owner u /\
           Unit.zone u' = Unit.zone u /\ Unit.coh u' = Unit.coh u /\
           Unit.ammo u' = Unit.ammo u /\
           (Unit.owner u = pid -> Unit.attacked_this_turn u' = false) /\
           (Unit.owner u <> pid -> u' = u)).
Proof.
  intros pid g'. subst g'. rewrite start_phase_unfold. cbv zeta.
  cbn [snd zones set_zones]. rewrite lookup_fmap.
  destruct (draw_loop_fields 1 r
    (PlayerState.set_cp (Z.min 5 (PlayerState.cp (deref g p) + 2)) (deref g p)))
    as (-> & _ & _).
  cbn [PlayerState.pid PlayerState.set_cp]. fold pid.
  split; [intros ->; reflexivity|].
  intros z ->. eexists. split; [reflexivity|].
  unfold reset_attacks. cbn [Zone.id Zone.capacity Zone.units Zone.set_units].
  rewrite length_fmap. repeat split.
  intros k u Hu. rewrite list_lookup_fmap, Hu. eexists. split; [reflexivity|].
  destruct (Z.eqb_spec (Unit.owner u) pid) as [E|N]; simpl; repeat split; auto.
  all: intros; contradiction.
Qed.

Lemma player_step_pid s s' : player_step s s' -> PlayerState.pid s' = PlayerState.pid s.
Proof.
  intros S. destruct S as [|k r|r|i tc Hi Hc]; try reflexivity.
  - apply draw_loop_fields.
  - destruct (draw_loop_fields 1 r
      (PlayerState.set_cp (Z.min 5 (PlayerState.cp s + 2)) s)) as (-> & _). reflexivity.
Qed.

Lemma reachable_pid w q :
  reachable w -> PlayerState.pid (deref w.2 q) = match q with P1 => 1 | P2 => 2 end.
Proof.
  apply (reachable_player_keeps
    (fun q s => PlayerState.pid s = match q with P1 => 1 | P2 => 2 end)).
  - intros r q0. apply new_Game_player.
  - intros q0 s s' H S. rewrite (player_step_pid _ _ S). exact H.
Qed.

Lemma reset_attacks_as_deployed pid zid z :
  Forall (as_deployed zid) (Zone.units z) ->
  Forall (as_deployed zid) (Zone.units (reset_attacks pid z)).
Proof.
  unfold reset_attacks. cbn [Zone.units Zone.set_units]. intros F.
  apply Forall_fmap. eapply Forall_impl; [exact F|].
  intros u (A & B & C & D & E & G). simpl.
  destruct (Unit.owner u =? pid); unfold as_deployed; simpl; auto 10.
Qed.

Lemma reachable_units w :
  reachable w ->
  forall zid z, zones w.2 !! zid = Some z ->
    Zone.id z = zid /\ Forall (as_deployed zid) (Zone.units z).
Proof using shuffle_perm.
  induction 1 as [r|o w w' R IH H]; intros zid z.
  - destruct (new_Game_board r) as (-> & _).
    destruct (init_zones_lookup zid) as (cap & -> & _).
    intros [= <-]. split; [reflexivity|constructor].
  - pose proof (run_op_zones _ _ _ H) as S.
    destruct S as [|pid|p c tc k z0 Hc -> Hz Hs].
    + apply IH.
    + rewrite lookup_fmap.
      destruct (zones w.2 !! zid) as [z1|] eqn:E; [|discriminate].
      intros E'. apply (inj Some) in E'. subst z.
      destruct (IH zid z1 E) as [I1 I2].
      split; [exact I1|]. apply reset_attacks_as_deployed, I2.
    + destruct (decide (k = zid)) as [->|N].
      * rewrite lookup_insert_eq. intros [= <-].
        destruct (IH zid z0 Hz) as [I1 I2].
        split; [exact I1|]. cbn [Zone.units Zone.set_units].
        apply Forall_app. split; [exact I2|].
        constructor; [|constructor].
        unfold as_deployed. cbn. split; [reflexivity|].
        split; [rewrite (reachable_pid w p R); destruct p; auto|].
        split; [|auto].
        assert (IsTroopCard tc ∈ cards_of (deref w.2 p)) as M.
        { unfold cards_of. rewrite !elem_of_app. auto. }
        rewrite (reachable_cards w p R) in M.
        apply elem_of_app in M. destruct M; assumption.
      * rewrite lookup_insert_ne by exact N. apply IH.
Qed.

Lemma catalog_cohesion tc : IsTroopCard tc ∈ base_deck -> 0 < TroopStats.coh (TroopCard.stats tc).
Proof.
  assert (Forall (fun c => forall t, c = IsTroopCard t ->
                    0 < TroopStats.coh (TroopCard.stats t)) base_deck) as F.
  { unfold base_deck. repeat constructor; intros t [= <-]; simpl; lia. }
  rewrite Forall_forall in F. intros H. exact (F _ H tc eq_refl).
Qed.

(** X7: in every reachable state each unit on the board is as the deploy
    made it: it lies in the zone its [zone] field names, its owner is 1 or
    2, its card is a troop card of the catalog, its cohesion and ammunition
    are those of the card, and its attack flag is down; in particular every
    unit on the board is alive. *)
Theorem X7_units_as_deployed (w : Rng * Game) (zid : ZoneId) (z : Zone.t) (u : Unit.t) :
  reachable w ->
  zones w.2 !! zid = Some z ->
  u ∈ Zone.units z ->
  Zone.id z = zid /\ as_deployed zid u /\ Unit.is_alive u = true.
Proof using shuffle_perm.
  intros R Hz Hu. destruct (reachable_units w R zid z Hz) as [I F].
  rewrite Forall_forall in F. specialize (F u Hu).
  split; [exact I|]. split; [exact F|].
  destruct F as (_ & _ & C & D & _).
  unfold Unit.is_alive. rewrite D. apply Z.ltb_lt, catalog_cohesion, C.
Qed.

Lemma reachable_capacity w : reachable w -> within_capacity w.2.
Proof.
  induction 1 as [r|o w w' R IH H].
  - intros zid z. destruct (new_Game_board r) as (-> & _).
    destruct (init_zones_lookup zid) as (cap & -> & Hcap).
    intros [= <-]. simpl. lia.
  - eapply run_op_capacity; eauto.
Qed.

Lemma zones_step_capacity g zs zid c :
  zones_step g zs ->
  (exists z, zones g !! zid = Some z /\ Zone.capacity z = c) ->
  exists z', zs !! zid = Some z' /\ Zone.capacity z' = c.
Proof.
  intros S (z & Hz & Hc). destruct S as [|pid|p c0 tc k z0 Hin -> Hk Hs].
  - eauto.
  - rewrite lookup_fmap, Hz. simpl. eauto.
  - destruct (decide (k = zid)) as [->|N].
    + rewrite lookup_insert_eq. rewrite Hz in Hk. injection Hk as <-. eauto.
    + rewrite lookup_insert_ne by exact N. eauto.
Qed.

Lemma reachable_table w zid :
  reachable w ->
  exists z, zones w.2 !! zid = Some z /\
    Zone.capacity z =
      match zid with
      | LEFT | CENTER | RIGHT => 3
      | RESERVE => 4
      | HQ | SUPPLY => 2
      end.
Proof.
  induction 1 as [r|o w w' R IH H].
  - destruct (new_Game_board r) as (-> & _). destruct zid; eexists; split; reflexivity.
  - eapply zones_step_capacity; [eapply run_op_zones, H | exact IH].
Qed.

(** X8: in every reachable state the dictionary holds all six zones, each
    under its own id and with the capacity it was built with (3 for LEFT,
    CENTER and RIGHT, 4 for RESERVE, 2 for HQ and SUPPLY), so no more than
    17 units are ever on the board. *)
Theorem X8_board_table (w : Rng * Game) :
  reachable w ->
  (forall zid, exists z,
     zones w.2 !! zid = Some z /\ Zone.id z = zid /\
     Zone.capacity z =
       match zid with
       | LEFT | CENTER | RIGHT => 3
       | RESERVE => 4
       | HQ | SUPPLY => 2
       end) /\
  (units_on_board w.2 <= 17)%nat.
Proof using shuffle_perm.
  intros R.
  assert (forall zid, exists z,
     zones w.2 !! zid = Some z /\ Zone.id z = zid /\
     Zone.capacity z =
       match zid with
       | LEFT | CENTER | RIGHT => 3
       | RESERVE => 4
       | HQ | SUPPLY => 2
       end) as T.
  { intros zid. destruct (reachable_table w zid R) as (z & Hz & Hc).
    exists z. split; [exact Hz|]. split; [|exact Hc].
    apply (reachable_units w R zid z Hz). }
  split; [exact T|].
  pose proof (reachable_capacity w R) as C.
  unfold units_on_board, units_in.
  destruct (T LEFT) as (z1 & E1 & _ & C1). destruct (T CENTER) as (z2 & E2 & _ & C2).
  destruct (T RIGHT) as (z3 & E3 & _ & C3). destruct (T RESERVE) as (z4 & E4 & _ & C4).
  destruct (T HQ) as (z5 & E5 & _ & C5). destruct (T SUPPLY) as (z6 & E6 & _ & C6).
  pose proof (C _ _ E1). pose proof (C _ _ E2). pose proof (C _ _ E3).
  pose proof (C _ _ E4). pose proof (C _ _ E5). pose proof (C _ _ E6).
  rewrite E1, E2, E3, E4, E5, E6. simpl. lia.
Qed.

Lemma zones_step_units_in g zs zid :
  zones_step g zs ->
  from_option (fun z => length (Zone.units z)) 0%nat (zs !! zid) = units_in g zid \/
  (from_option (fun z => length (Zone.units z)) 0%nat (zs !! zid) = S (units_in g zid) /\
   forall k, k <> zid ->
     from_option (fun z => length (Zone.units z)) 0%nat (zs !! k) = units_in g k).
Proof.
  unfold units_in. intros S. destruct S as [|pid|p c0 tc k z0 Hin -> Hk Hs].
  - auto.
  - left. rewrite lookup_fmap. destruct (zones g !! zid); simpl; [|reflexivity].
    apply length_fmap.
  - destruct (decide (k = zid)) as [->|N].
    + right. split.
      * rewrite lookup_insert_eq, Hk. simpl. rewrite length_app. simpl. lia.
      * intros k N. rewrite lookup_insert_ne by congruence. reflexivity.
    + left. rewrite lookup_insert_ne by exact N. reflexivity.
Qed.

(** X9: no operation takes a unit off the board: every zone holds after
    the operation at least the units it held before, the board holds at
    most one more, and only a deploy adds one. *)
Theorem X9_units_never_removed (o : Op) (w w' : Rng * Game) :
  run_op o w = Some w' ->
  (forall zid, (units_in w.2 zid <= units_in w'.2 zid)%nat) /\
  (units_on_board w.2 <= units_on_board w'.2 <= units_on_board w.2 + 1)%nat /\
  ((forall p i zid, o <> OpDeploy p i zid) ->
   units_on_board w'.2 = units_on_board w.2).
Proof.
  intros H. pose proof (run_op_zones _ _ _ H) as St.
  assert (forall zid, units_in w'.2 zid = units_in w.2 zid \/
            (units_in w'.2 zid = S (units_in w.2 zid) /\
             forall k, k <> zid -> units_in w'.2 k = units_in w.2 k)) as U.
  { intros zid. apply (zones_step_units_in _ _ zid St). }
  split; [intros zid; destruct (U zid) as [->|[-> _]]; lia|].
  split.
  - unfold units_on_board.
    destruct (U LEFT) as [A1|[A1 B1]]; destruct (U CENTER) as [A2|[A2 B2]];
    destruct (U RIGHT) as [A3|[A3 B3]]; destruct (U RESERVE) as [A4|[A4 B4]];
    destruct (U HQ) as [A5|[A5 B5]]; destruct (U SUPPLY) as [A6|[A6 B6]];
    repeat match goal with
           | B : forall k, k <> ?z -> _ |- _ =>
               pose proof (B LEFT); pose proof (B CENTER); pose proof (B RIGHT);
               pose proof (B RESERVE); pose proof (B HQ); pose proof (B SUPPLY);
               clear B
           end;
    repeat match goal with
           | X : ?a <> ?b -> _ |- _ =>
               first [ specialize (X ltac:(discriminate)) | clear X ]
           end;
    lia.
  - intros N. destruct w as [r g]. destruct o as [p n|p|p i zid|]; simpl in H.
    + injection H as <-. rewrite _draw_unfold. unfold units_on_board, units_in.
      cbn [snd]. rewrite zones_assign. reflexivity.
    + injection H as <-. rewrite start_phase_unfold. cbv zeta.
      unfold units_on_board, units_in. cbn [snd zones set_zones].
      rewrite !lookup_fmap.
      repeat match goal with
             | |- context [zones g !! ?z] => destruct (zones g !! z); simpl
             end;
      unfold reset_attacks; cbn [Zone.units Zone.set_units];
      rewrite ?length_fmap; reflexivity.
    + destruct (N p i zid eq_refl).
    + injection H as <-. unfold units_on_board, units_in. cbn [snd].
      rewrite zones_swap_player. reflexivity.
Qed.

(** ** What a deploy leaves alone *)

(** X10: however it ends, [deploy_troop_from_hand] costs nothing and moves
    nothing else: the command points, morale, id and deck of the player, the
    whole other player, the turn counter, the active player, the table of
    neighbours and every zone but the target are as before; the hand never
    grows, hand and discard together keep their size, and the result is
    [True] exactly when the hand got shorter. *)
Theorem X10_deploy_frame (g : Game) (p : PlayerRef) (i : Z) (zid : ZoneId)
    (b : bool) (g' : Game) :
  deploy_troop_from_hand g p i zid = Some (b, g') ->
  PlayerState.cp (deref g' p) = PlayerState.cp (deref g p) /\
  PlayerState.morale (deref g' p) = PlayerState.morale (deref g p) /\
  PlayerState.pid (deref g' p) = PlayerState.pid (deref g p) /\
  PlayerState.deck (deref g' p) = PlayerState.deck (deref g p) /\
  deref g' (the_other p) = deref g (the_other p) /\
  turn g' = turn g /\ active_pid g' = active_pid g /\ adj g' = adj g /\
  (forall k, k <> zid -> zones g' !! k = zones g !! k) /\
  (length (PlayerState.hand (deref g' p)) <= length (PlayerState.hand (deref g p)))%nat /\
  (length (PlayerState.hand (deref g' p)) + length (PlayerState.discard (deref g' p))
   = length (PlayerState.hand (deref g p)) + length (PlayerState.discard (deref g p)))%nat /\
  (b = true <->
   (length (PlayerState.hand (deref g' p)) < length (PlayerState.hand (deref g p)))%nat).
Proof.
  intros D. apply deploy_inv in D. destruct D as [|tc z Hi Hc Hz Hs].
  - repeat split; auto; try lia.
  - rewrite deref_assign_same, deref_assign_other, deref_set_zones, zones_assign.
    player_fields. cbn [zones set_zones].
    assert (length (delete (Z.to_nat i) (PlayerState.hand (deref g p)))
            = (length (PlayerState.hand (deref g p)) - 1)%nat) as L
      by (apply length_delete; eauto).
    assert (0 < length (PlayerState.hand (deref g p)))%nat by lia.
    rewrite L, length_app. cbn [length].
    repeat split; try (destruct p; reflexivity); try lia.
    intros k N. apply lookup_insert_ne. congruence.
Qed.

(** ** The two players *)

(** X11: for every integer [pid], [other_pid(pid)] is 1 or 2 and
    [player(other_pid(pid))] is the player that [player(pid)] is not;
    [other_pid] undoes itself exactly on 1 and 2, and every [pid] other than
    1 is taken for player 2.  In a reachable state the player found under
    1 or 2 carries that id. *)
Theorem X11_player_lookup (g : Game) (pid : Z) :
  (other_pid pid = 1 \/ other_pid pid = 2) /\
  player g (other_pid pid) = the_other (player g pid) /\
  (other_pid (other_pid pid) = pid <-> pid = 1 \/ pid = 2) /\
  (pid <> 1 -> player g pid = P2) /\
  (forall r, reachable (r, g) -> pid = 1 \/ pid = 2 ->
     PlayerState.pid (deref g (player g pid)) = pid).
Proof.
  split; [unfold other_pid; destruct (pid =? 1); auto|].
  split; [unfold other_pid, player; destruct (Z.eqb_spec pid 1); reflexivity|].
  split.
  { unfold other_pid. destruct (Z.eqb_spec pid 1) as [->|N]; simpl; [intuition lia|].
    split; [intros <-; right; reflexivity|intros [?|?]; lia]. }
  split; [unfold player; destruct (Z.eqb_spec pid 1); [contradiction|reflexivity]|].
  intros r R [->| ->]; simpl.
  - apply (reachable_pid (r, g) P1 R).
  - apply (reachable_pid (r, g) P2 R).
Qed.

(** ** The table of neighbours *)

Lemma init_adj_symmetric x y : adjacent init_adj x y -> adjacent init_adj y x.
Proof.
  clear shuffle_perm.
  intros (l & Hl & Hy).
  destruct x; vm_compute in Hl; injection Hl as <-;
    repeat (apply elem_of_cons in Hy as [->|Hy]);
    try (apply elem_of_nil in Hy; contradiction);
    (eexists; split; [vm_compute; reflexivity|]; set_solver).
Qed.

Lemma init_adj_irreflexive x : ~ adjacent init_adj x x.
Proof.
  clear shuffle_perm.
  intros (l & Hl & Hy).
  destruct x; vm_compute in Hl; injection Hl as <-;
    repeat (apply elem_of_cons in Hy as [Hy|Hy]; [discriminate Hy|]);
    apply elem_of_nil in Hy; contradiction.
Qed.

Lemma init_adj_reserve x : x <> RESERVE -> adjacent init_adj x RESERVE.
Proof.
  clear shuffle_perm.
  intros N. destruct x; try contradiction;
    (eexists; split; [vm_compute; reflexivity|]; set_solver).
Qed.

(** X12: no operation touches the table of neighbours: in every reachable
    state it is the table [Game()] built, every zone has an entry, no zone
    neighbours itself, being neighbours is mutual, and every zone other
    than RESERVE has RESERVE as a neighbour, so that two zones are never
    more than two steps apart. *)
Theorem X12_adjacency (w : Rng * Game) :
  reachable w ->
  adj w.2 = init_adj /\
  (forall x, is_Some (adj w.2 !! x)) /\
  (forall x, ~ adjacent (adj w.2) x x) /\
  (forall x y, adjacent (adj w.2) x y -> adjacent (adj w.2) y x) /\
  (forall x y, x <> y ->
     adjacent (adj w.2) x y \/
     (adjacent (adj w.2) x RESERVE /\ adjacent (adj w.2) RESERVE y)).
Proof.
  clear shuffle_perm. intros R.
  assert (adj w.2 = init_adj) as E.
  { induction R as [r|o w w' R IH H].
    - rewrite new_Game_unfold. reflexivity.
    - rewrite (run_op_adj _ _ _ H). exact IH. }
  rewrite E. split; [reflexivity|].
  split; [intros x; destruct x; vm_compute; eauto|].
  split; [exact init_adj_irreflexive|].
  split; [exact init_adj_symmetric|].
  intros x y N.
  destruct (decide (x = RESERVE)) as [->|Nx].
  - left. apply init_adj_symmetric, init_adj_reserve. congruence.
  - destruct (decide (y = RESERVE)) as [->|Ny].
    + left. apply init_adj_reserve, Nx.
    + right. split; [apply init_adj_reserve, Nx|].
      apply init_adj_symmetric, init_adj_reserve, Ny.
Qed.

(** ** Requests of the demo loop *)


(** ** Whole turns and the program *)

Lemma reachable_no_winner w : reachable w -> game_over w.2 = (None, w.2).
Proof.
  intros R. unfold game_over.
  assert (forall q, PlayerState.morale (deref w.2 q) = 25) as M.
  { intros q. induction R as [r|o w w' R IH H].
    - apply new_Game_player.
    - rewrite (run_op_morale _ _ _ q H). exact IH. }
  pose proof (M P1) as M1. pose proof (M P2) as M2. cbn [deref] in M1, M2.
  rewrite M1, M2. reflexivity.
Qed.

Lemma deploy_front g p i zid b g' k :
  deploy_troop_from_hand g p i zid = Some (b, g') ->
  k <> zid -> units_in g' k = units_in g k.
Proof.
  intros D N. apply deploy_inv in D. destruct D; [reflexivity|].
  unfold units_in. rewrite zones_assign. cbn [zones set_zones].
  rewrite lookup_insert_ne by congruence. reflexivity.
Qed.

Lemma deploy_cp g p i zid b g' q :
  deploy_troop_from_hand g p i zid = Some (b, g') ->
  PlayerState.cp (deref g' q) = PlayerState.cp (deref g q).
Proof.
  intros D. apply deploy_inv in D. destruct D; [reflexivity|].
  destruct (ref_cases p q) as [->| ->].
  - rewrite deref_assign_same. reflexivity.
  - rewrite deref_assign_other, deref_set_zones. reflexivity.
Qed.

Lemma start_phase_units_in r g p k :
  units_in (start_phase r g p).2 k = units_in g k.
Proof.
  rewrite start_phase_unfold. cbv zeta. unfold units_in. cbn [snd zones set_zones].
  rewrite lookup_fmap. destruct (zones g !! k); simpl; [|reflexivity].
  unfold reset_attacks. cbn [Zone.units Zone.set_units]. apply length_fmap.
Qed.

Lemma start_phase_cp r g p :
  PlayerState.cp (deref (start_phase r g p).2 p)
    = Z.min 5 (PlayerState.cp (deref g p) + 2) /\
  PlayerState.cp (deref (start_phase r g p).2 (the_other p))
    = PlayerState.cp (deref g (the_other p)).
Proof.
  rewrite start_phase_unfold. cbv zeta. cbn [snd].
  rewrite !deref_set_zones, deref_assign_same, deref_assign_other.
  destruct (draw_loop_fields 1 r
    (PlayerState.set_cp (Z.min 5 (PlayerState.cp (deref g p) + 2)) (deref g p)))
    as (_ & _ & ->).
  split; reflexivity.
Qed.

Lemma after_turns_new r : after_turns 0 (new_Game r).2.
Proof.
  rewrite new_Game_unfold. cbv zeta. unfold after_turns. cbn [snd active_pid turn p1 p2].
  destruct (draw_loop_fields 5 (shuffle (shuffle r (base_deck ++ base_deck)).1
              (base_deck ++ base_deck)).1
              (PlayerState.mk 1 25 0 (shuffle r (base_deck ++ base_deck)).2 [] []))
    as (_ & _ & ->).
  match goal with
  | |- context [PlayerState.cp (draw_loop 5 ?r0 ?s).2] =>
      destruct (draw_loop_fields 5 r0 s) as (_ & _ & ->)
  end.
  repeat split. intros k F. destruct k; try discriminate F; reflexivity.
Qed.

Lemma hq_deploys_frame p g g' :
  hq_deploys p g g' ->
  (forall k, front_zone k = true -> units_in g' k = units_in g k) /\
  (forall q, PlayerState.cp (deref g' q) = PlayerState.cp (deref g q)).
Proof.
  induction 1 as [g|g i zid ok g1 g2 F D _ [H1 H2]]; [auto|].
  split.
  - intros k Fk. rewrite (H1 k Fk). eapply deploy_front; [exact D|].
    intros ->. rewrite F in Fk. discriminate Fk.
  - intros q. rewrite H2. eapply deploy_cp, D.
Qed.

Lemma play_one_turn_frame r g c w :
  play_one_turn r g c = (None, w) ->
  (forall k, front_zone k = true -> units_in w.1.2 k = units_in g k) /\
  PlayerState.cp (deref w.1.2 (player g (active_pid g)))
    = Z.min 5 (PlayerState.cp (deref g (player g (active_pid g))) + 2) /\
  PlayerState.cp (deref w.1.2 (the_other (player g (active_pid g))))
    = PlayerState.cp (deref g (the_other (player g (active_pid g)))).
Proof.
  destruct w as [[r' g'] c']. intros H. cbn [fst snd].
  destruct (play_one_turn_spec _ _ _ _ _ _ _ H) as [(E & _)|(_ & g2 & D & Hc & _)];
    [discriminate E|].
  destruct Hc as [(_ & -> & _)|(N & _)]; [|contradiction].
  pose proof (start_phase_cp r g (player g (active_pid g))) as [C1 C2].
  pose proof (start_phase_units_in r g (player g (active_pid g))) as U.
  apply hq_deploys_frame in D as [M1 M2].
  unfold units_in in *. rewrite zones_swap_player, !deref_swap_player.
  split; [intros k F; rewrite (M1 k F); apply U|].
  rewrite !M2. auto.
Qed.

Lemma after_turns_step n r g c w :
  after_turns n g -> play_one_turn r g c = (None, w) -> after_turns (S n) w.1.2.
Proof.
  intros (A & T & C1 & C2 & F) H.
  destruct (play_one_turn_clock _ _ _ _ H) as [A' T'].
  destruct (play_one_turn_frame _ _ _ _ H) as (F' & D1 & D2).
  unfold after_turns. rewrite Nat2Z.inj_succ. unfold Z.succ.
  set (m := Z.of_nat n) in *. assert (0 <= m) as Hm by lia.
  assert (m mod 2 = 0 \/ m mod 2 = 1) as [E|E]
    by (pose proof (Z.mod_pos_bound m 2); lia).
  - rewrite E in A. change (1 + 0) with 1 in A. rewrite A in *.
    change (other_pid 1) with 2 in *. change (player g 1) with P1 in *.
    rewrite A' in T'. change (2 =? 1) with false in T'. cbv iota in T'.
    cbn [the_other deref] in D1, D2.
    split; [rewrite A'; Z.div_mod_to_equations; lia|].
    split; [rewrite T', T; Z.div_mod_to_equations; lia|].
    split; [rewrite D1, C1; Z.div_mod_to_equations; lia|].
    split; [rewrite D2, C2; Z.div_mod_to_equations; lia|].
    intros k Fk. rewrite (F' k Fk). apply F, Fk.
  - rewrite E in A. change (1 + 1) with 2 in A. rewrite A in *.
    change (other_pid 2) with 1 in *. change (player g 2) with P2 in *.
    rewrite A' in T'. change (1 =? 1) with true in T'. cbv iota in T'.
    cbn [the_other deref] in D1, D2.
    split; [rewrite A'; Z.div_mod_to_equations; lia|].
    split; [rewrite T', T; Z.div_mod_to_equations; lia|].
    split; [rewrite D2, C1; Z.div_mod_to_equations; lia|].
    split; [rewrite D1, C2; Z.div_mod_to_equations; lia|].
    intros k Fk. rewrite (F' k Fk). apply F, Fk.
Qed.

(** The loop of [main] from a reachable state that is [n] turns into the
    game: where it stands is reachable, no winner is named, no [KeyError]
    is raised, it is [turns] turns further when it is still running, and it
    is not running any more when it was given fewer lines than turns. *)
Lemma main_rounds_run turns : forall n r g c o w,
  reachable (r, g) -> after_turns n g ->
  main_rounds turns r g c = (o, w) ->
  reachable w.1 /\
  (forall pid, o <> Won pid) /\
  o <> Raised KeyError /\
  (o = Running -> after_turns (n + turns) w.1.2) /\
  ((length (stdin c) < turns)%nat -> o <> Running).
Proof.
  induction turns as [|turns IH]; intros n r g c o w R I;
    pose proof (reachable_no_winner (r, g) R) as G; cbn [snd] in G;
    cbn [main_rounds]; rewrite G.
  - intros [= <- <-]. cbn [fst snd]. rewrite Nat.add_0_r.
    split; [exact R|]. split; [discriminate|]. split; [discriminate|].
    split; [intros _; exact I|]. intros Hl. lia.
  - destruct (play_one_turn r g c) as [[e|] w1] eqn:E.
    + intros [= <- <-].
      split; [eapply play_one_turn_reachable; eauto|].
      split; [discriminate|].
      split; [|split; [discriminate|intros _; discriminate]].
      destruct w1 as [[r1 g1] c1].
      destruct (play_one_turn_spec _ _ _ _ _ _ _ E) as [(X & _)|(_ & g2 & _ & _ & K)].
      * injection X as ->. discriminate.
      * intros [= ->]. apply K; [apply (reachable_has_zones _ R)|reflexivity].
    + destruct w1 as [[r1 g1] c1]. intros H.
      pose proof (play_one_turn_reachable _ _ _ _ _ R E) as R1. cbn [fst] in R1.
      pose proof (after_turns_step _ _ _ _ _ I E) as I1. cbn [fst snd] in I1.
      destruct (IH (S n) r1 g1 c1 o w R1 I1 H) as (Rw & W & K & A & L).
      split; [exact Rw|]. split; [exact W|]. split; [exact K|].
      split; [intros Eo; rewrite Nat.add_succ_r; apply A, Eo|].
      intros Lc. apply L.
      destruct (play_one_turn_spec _ _ _ _ _ _ _ E) as [(X & _)|(_ & g2 & _ & Hc & _)];
        [discriminate X|].
      destruct Hc as [(_ & _ & Ls)|(N & _)]; [lia|contradiction].
Qed.

Lemma main_run turns r lines :
  reachable (main turns r lines).2.1 /\
  (forall pid, (main turns r lines).1 <> Won pid) /\
  (main turns r lines).1 <> Raised KeyError /\
  ((main turns r lines).1 = Running -> after_turns turns (main turns r lines).2.1.2) /\
  ((length lines < turns)%nat -> (main turns r lines).1 <> Running).
Proof.
  unfold main. pose proof (reach_new r) as R. pose proof (after_turns_new r) as I.
  destruct (new_Game r) as [r0 g].
  destruct (main_rounds turns r0 g _) as [o w] eqn:E.
  apply (main_rounds_run turns 0 r0 g _ o w R I E).
Qed.

(** X14: whatever is typed and however many turns are asked for, [main]
    never names a winner and never raises [KeyError], and the game it has
    come to is reachable; on an input of fewer lines than the turns asked
    for it does not go on for ever: it is left by [EOFError] or by
    [ValueError]. *)
Theorem X14_main_never_names_a_winner (turns : nat) (r : Rng) (lines : list pystr) :
  reachable (main turns r lines).2.1 /\
  (forall pid, (main turns r lines).1 <> Won pid) /\
  (main turns r lines).1 <> Raised KeyError /\
  ((length lines < turns)%nat ->
   (main turns r lines).1 = Raised EOFError \/
   (main turns r lines).1 = Raised ValueError).
Proof.
  destruct (main_run turns r lines) as (R & W & K & _ & L).
  split; [exact R|]. split; [exact W|]. split; [exact K|].
  intros Hl. specialize (L Hl).
  destruct (main turns r lines).1 as [|pid|[| |]]; auto; try contradiction.
  destruct (W pid eq_refl).
Qed.

(** X15: when [main] is still running after [n] whole turns, the active
    player is 1 when [n] is even and 2 when it is odd, and the turn counter
    is [1 + n / 2]. *)
Theorem X15_clock_after_turns (turns : nat) (r : Rng) (lines : list pystr)
    (w : Rng * Game * Console) :
  main turns r lines = (Running, w) ->
  active_pid w.1.2 = 1 + Z.of_nat turns mod 2 /\
  turn w.1.2 = 1 + Z.of_nat turns / 2.
Proof.
  intros H. destruct (main_run turns r lines) as (_ & _ & _ & A & _).
  rewrite H in A. destruct (A eq_refl) as (A1 & T1 & _). auto.
Qed.

(** X16: when [main] is still running after [n] whole turns, player 1 has
    had [(n + 1) / 2] start phases and player 2 [n / 2], and nothing has
    spent a command point: player 1 has [min 5 (2 * ((n + 1) / 2))] of
    them and player 2 [min 5 (2 * (n / 2))]. *)
Theorem X16_command_points_after_turns (turns : nat) (r : Rng) (lines : list pystr)
    (w : Rng * Game * Console) :
  main turns r lines = (Running, w) ->
  PlayerState.cp (p1 w.1.2) = Z.min 5 (2 * ((Z.of_nat turns + 1) / 2)) /\
  PlayerState.cp (p2 w.1.2) = Z.min 5 (2 * (Z.of_nat turns / 2)).
Proof.
  intros H. destruct (main_run turns r lines) as (_ & _ & _ & A & _).
  rewrite H in A. destruct (A eq_refl) as (_ & _ & C1 & C2 & _). auto.
Qed.

(** X17: the turns of [main] deploy into HQ and RESERVE only: when [main]
    is still running after its turns, LEFT, CENTER, RIGHT and SUPPLY are
    empty, and the board holds no more than the 6 units HQ and RESERVE have
    room for. *)
Theorem X17_front_stays_empty (turns : nat) (r : Rng) (lines : list pystr)
    (w : Rng * Game * Console) :
  main turns r lines = (Running, w) ->
  (forall k, front_zone k = true -> units_in w.1.2 k = 0%nat) /\
  (units_on_board w.1.2 <= 6)%nat.
Proof.
  intros H. destruct (main_run turns r lines) as (R & _ & _ & A & _).
  rewrite H in A, R. cbn [fst snd] in A, R. destruct (A eq_refl) as (_ & _ & _ & _ & F).
  split; [exact F|].
  unfold units_on_board.
  rewrite (F LEFT), (F CENTER), (F RIGHT), (F SUPPLY) by reflexivity.
  pose proof (reachable_capacity w.1 R) as C.
  destruct (reachable_table w.1 RESERVE R) as (z4 & E4 & C4).
  destruct (reachable_table w.1 HQ R) as (z5 & E5 & C5).
  pose proof (C _ _ E4). pose proof (C _ _ E5).
  unfold units_in. rewrite E4, E5. simpl. lia.
Qed.

(** ** The start phase and the cards *)

(** X18: the start phase gives its player exactly one card, put at the end
    of the hand, unless deck and discard are both empty, in which case the
    hand stays as it is; deck and discard together lose that card, and the
    other player is not touched at all. *)
Theorem X18_start_phase_draws_one (r : Rng) (g : Game) (p : PlayerRef) :
  let s := deref g p in
  let s' := deref (start_phase r g p).2 p in
  let avail := (length (PlayerState.deck s) + length (PlayerState.discard s))%nat in
  (exists cs, PlayerState.hand s' = PlayerState.hand s ++ cs /\
              length cs = Nat.min 1 avail) /\
  (length (PlayerState.deck s') + length (PlayerState.discard s'))%nat
    = (avail - Nat.min 1 avail)%nat /\
  deref (start_phase r g p).2 (the_other p) = deref g (the_other p).
Proof using shuffle_perm.
  intros s s' avail. subst s'. rewrite start_phase_unfold. cbv zeta. cbn [snd].
  rewrite !deref_set_zones, deref_assign_same, deref_assign_other. fold s.
  destruct (draw_loop_count 1 r
    (PlayerState.set_cp (Z.min 5 (PlayerState.cp s + 2)) s)) as [H1 H2].
  destruct (draw_loop_hand 1 r
    (PlayerState.set_cp (Z.min 5 (PlayerState.cp s + 2)) s)) as (cs & Hc & _).
  cbv zeta in H1, H2. player_fields.
  player_fields_in H1. player_fields_in H2. player_fields_in Hc.
  fold avail in H1, H2.
  split; [|split; [exact H2|reflexivity]].
  exists cs. split; [exact Hc|].
  rewrite Hc, length_app in H1. lia.
Qed.

(** X19: in every reachable state each player owns, over deck, hand and
    discard, the cards the decks were built from: 20 troop cards, 6
    strategems and 4 ambushes. *)
Theorem X19_deck_composition (w : Rng * Game) (q : PlayerRef) :
  reachable w ->
  length (filter (fun c => card_kind c = TROOP) (cards_of (deref w.2 q))) = 20%nat /\
  length (filter (fun c => card_kind c = STRATEGEM) (cards_of (deref w.2 q))) = 6%nat /\
  length (filter (fun c => card_kind c = AMBUSH) (cards_of (deref w.2 q))) = 4%nat.
Proof using shuffle_perm.
  intros R. rewrite (reachable_cards w q R). repeat split; reflexivity.
Qed.

End Engine.

(** ** Concrete runs

    The statements above, applied to concrete games, with [cut_shuffle] over
    [nat] seeds as the random source. *)

(** The amended C1 at [both_broken]: both morales are 0 and the winner is 2. *)
Lemma C1_winner_is_2_witness :
  PlayerState.morale (p1 both_broken) <= 0 /\
  PlayerState.morale (p2 both_broken) <= 0 /\
  (game_over both_broken).1 = Some 2.
Proof.
  split; [unfold both_broken; simpl; lia|].
  split; [unfold both_broken; simpl; lia|].
  apply C1_both_broken_winner_is_2; unfold both_broken; simpl; lia.
Defined.

(** C2 at [second_broken]: player 2's morale is -1 and the winner is 1. *)
Lemma C2_game_over_witness :
  (game_over second_broken).1 = Some 1 /\
  PlayerState.morale (deref second_broken (player second_broken (other_pid 1))) <= 0 /\
  (game_over second_broken).2 = second_broken.
Proof.
  destruct (C2_game_over_spec second_broken) as (H & _ & _ & E).
  split; [reflexivity|].
  split; [apply (H 1); reflexivity | exact E].
Defined.

(** C3 on a new game and after a deploy into HQ. *)
Lemma C3_zone_capacity_witness :
  reachable nat cut_shuffle (new_Game nat cut_shuffle 7%nat) /\
  within_capacity (new_Game nat cut_shuffle 7%nat).2 /\
  exists g',
    deploy_troop_from_hand (new_Game nat cut_shuffle 7%nat).2 P1 0 HQ = Some (true, g') /\
    within_capacity g'.
Proof.
  destruct (C3_zone_capacity nat cut_shuffle) as (_ & Hop & Hreach & _).
  assert (reachable nat cut_shuffle (new_Game nat cut_shuffle 7%nat)) as R
    by apply reach_new.
  split; [exact R|]. split; [apply Hreach, R|].
  eexists. split; [vm_compute; reflexivity|].
  refine (Hop (OpDeploy P1 0 HQ) (new_Game nat cut_shuffle 7%nat) (_, _) _ (Hreach _ R)).
  vm_compute. reflexivity.
Defined.

(** C4 on a new game after drawing 27 cards from a deck of 25 (the two
    last attempts find deck and discard empty). *)
Lemma C4_cards_conserved_witness :
  (forall (r : nat) (l : list card), (cut_shuffle r l).2 ≡ₚ l) /\
  exists w',
    run_op nat cut_shuffle (OpDraw P1 27) (new_Game nat cut_shuffle 7%nat) = Some w' /\
    cards_of (deref w'.2 P1) ≡ₚ cards_of (deref (new_Game nat cut_shuffle 7%nat).2 P1) /\
    cards_of (deref w'.2 P1) ≡ₚ base_deck ++ base_deck.
Proof.
  split; [exact cut_shuffle_perm|].
  destruct (C4_cards_conserved nat cut_shuffle cut_shuffle_perm) as (_ & Hop & Hreach).
  eexists. split; [reflexivity|]. split.
  - apply (Hop (OpDraw P1 27)). reflexivity.
  - apply Hreach.
    apply (reach_op nat cut_shuffle (OpDraw P1 27) (new_Game nat cut_shuffle 7%nat));
      [apply reach_new | reflexivity].
Defined.

(** C5 from 4 command points. *)
Lemma C5_gain_resources_witness :
  PlayerState.cp (deref reshuffle_demo P1) = 4 /\
  PlayerState.cp (deref (start_phase nat cut_shuffle 1%nat reshuffle_demo P1).2 P1) = 5.
Proof.
  split; [reflexivity|].
  destruct (C5_gain_resources nat cut_shuffle 1%nat reshuffle_demo P1) as (_ & _ & H & _).
  apply H. reflexivity.
Defined.

(** C6 on an empty deck with three cards in the discard: the discard is
    shuffled into the deck, its top card goes to the hand and the discard
    is empty. *)
Lemma C6_draw_spec_witness :
  PlayerState.deck (deref reshuffle_demo P1) = [] /\
  PlayerState.discard (deref reshuffle_demo P1) <> [] /\
  PlayerState.hand (deref (_draw nat cut_shuffle 1%nat reshuffle_demo P1 1).2 P1)
    = [scouts; marines] /\
  PlayerState.deck (deref (_draw nat cut_shuffle 1%nat reshuffle_demo P1 1).2 P1)
    = [heavy; booby] /\
  PlayerState.discard (deref (_draw nat cut_shuffle 1%nat reshuffle_demo P1 1).2 P1) = [].
Proof.
  split; [reflexivity|]. split; [discriminate|].
  destruct (C6_draw_spec nat cut_shuffle cut_shuffle_perm 1%nat reshuffle_demo P1)
    as (_ & _ & _ & H & _).
  destruct H as (d & c & S & _ & _ & Hh & Hd & Hx); [reflexivity | discriminate |].
  change ([heavy; booby] ++ [marines] = d ++ [c]) in S.
  apply app_inj_tail in S as [<- <-].
  split; [exact Hh|]. split; [exact Hd | exact Hx].
Defined.

(** C7 with hand index 1 on a hand of one card. *)
Lemma C7_deploy_failure_witness :
  Z.of_nat (length (PlayerState.hand (deref reshuffle_demo P1))) <= 1 /\
  deploy_troop_from_hand reshuffle_demo P1 1 HQ = Some (false, reshuffle_demo).
Proof.
  split; [simpl; lia|].
  apply C7_deploy_failure. left. right. simpl. lia.
Defined.

(** C8 on a new game: the first card of player 1's hand goes to the empty
    HQ; the hand drops to 4 cards and the discard grows to 1. *)
Lemma C8_deploy_success_witness :
  exists g',
    deploy_troop_from_hand (new_Game nat cut_shuffle 7%nat).2 P1 0 HQ = Some (true, g') /\
    (Zone.units <$> zones g' !! HQ) =
      Some [Unit.mk (TroopCard.mk "troop_heavy" "Heavy Weapons Team"
                       "Artillery-ish (ammo 2 later)." (TroopStats.mk 7 2 4 1 2))
              1 HQ 4 2 false] /\
    length (PlayerState.hand (deref g' P1)) = 4%nat /\
    length (PlayerState.discard (deref g' P1)) = 1%nat.
Proof.
  destruct (C8_deploy_success (new_Game nat cut_shuffle 7%nat).2 P1 0 HQ
              (TroopCard.mk "troop_heavy" "Heavy Weapons Team"
                 "Artillery-ish (ammo 2 later)." (TroopStats.mk 7 2 4 1 2))
              (Zone.mk HQ 2 []))
    as (g' & D & Hz & _ & Hh & Hd & _).
  - vm_compute. split; [discriminate | reflexivity].
  - vm_compute. reflexivity.
  - vm_compute. reflexivity.
  - reflexivity.
  - exists g'. split; [exact D|]. split; [rewrite Hz; reflexivity|].
    split; [rewrite Hh | rewrite Hd]; vm_compute; reflexivity.
Defined.

(** C9 from turn 1 with player 1 active: for the swap alone, and for two
    whole turns of a new game that are ended at once. *)
Lemma C9_turn_swap_witness :
  turn blank_game = 1 /\ active_pid blank_game = 1 /\
  active_pid (swap_player blank_game) = 2 /\ turn (swap_player blank_game) = 1 /\
  active_pid (swap_player (swap_player blank_game)) = 1 /\
  turn (swap_player (swap_player blank_game)) = 2 /\
  exists w1 w2,
    play_one_turn nat cut_shuffle ascii_lib (new_Game nat cut_shuffle 7%nat).1
      (new_Game nat cut_shuffle 7%nat).2 (mkConsole [py "end"; py " End "] [])
      = (None, w1) /\
    play_one_turn nat cut_shuffle ascii_lib w1.1.1 w1.1.2 w1.2 = (None, w2) /\
    active_pid w1.1.2 = 2 /\ turn w1.1.2 = 1 /\
    active_pid w2.1.2 = 1 /\ turn w2.1.2 = 2.
Proof.
  split; [reflexivity|]. split; [reflexivity|].
  destruct (C9_turn_swap nat cut_shuffle ascii_lib) as (_ & _ & _ & _ & H & _ & H2).
  split; [apply H; reflexivity|]. split; [apply H; reflexivity|].
  split; [apply H; reflexivity|]. split; [apply H; reflexivity|].
  destruct (H2 (new_Game nat cut_shuffle 7%nat).1 (new_Game nat cut_shuffle 7%nat).2
              (mkConsole [py "end"; py " End "] []) [py " End "] [])
    as (w1 & w2 & E1 & E2 & _ & _ & R).
  - intros z. eexists. reflexivity.
  - apply (reachable_has_zones nat cut_shuffle (new_Game nat cut_shuffle 7%nat)).
    apply reach_new.
  - vm_compute. reflexivity.
  - vm_compute. reflexivity.
  - reflexivity.
  - reflexivity.
  - exists w1, w2. split; [exact E1|]. split; [exact E2|]. exact R.
Defined.

(** C10 on a new game and after a whole turn with two deploy requests. *)
Lemma C10_morale_witness :
  reachable nat cut_shuffle (new_Game nat cut_shuffle 7%nat) /\
  (game_over (new_Game nat cut_shuffle 7%nat).2).1 = None /\
  exists w,
    play_one_turn nat cut_shuffle ascii_lib (new_Game nat cut_shuffle 7%nat).1
      (new_Game nat cut_shuffle 7%nat).2
      (mkConsole [py "d"; py "1"; py "HQ"; py "x"; py "d"; py "9"; py "RESERVE"; py "end"] [])
      = (None, w) /\
    (game_over w.1.2).1 = None.
Proof.
  destruct (C10_morale_never_changes nat cut_shuffle ascii_lib) as (_ & _ & _ & Hg & Ht).
  assert (reachable nat cut_shuffle (new_Game nat cut_shuffle 7%nat)) as R
    by apply reach_new.
  split; [exact R|]. split; [apply Hg, R|].
  eexists. split; [vm_compute; reflexivity|].
  eapply (Ht (new_Game nat cut_shuffle 7%nat).1 (new_Game nat cut_shuffle 7%nat).2
            (mkConsole [py "d"; py "1"; py "HQ"; py "x"; py "d"; py "9"; py "RESERVE";
                        py "end"] []) None).
  - destruct (new_Game nat cut_shuffle 7%nat). exact R.
  - vm_compute. reflexivity.
Defined.

(** ** Concrete runs of the further statements *)

Local Abbreviation demo_start := (new_Game nat cut_shuffle 7%nat).

(** X1 with seed 7. *)
Lemma X1_new_game_deal_witness :
  length (PlayerState.hand (deref demo_start.2 P2)) = 5%nat /\
  length (PlayerState.deck (deref demo_start.2 P2)) = 25%nat /\
  PlayerState.discard (deref demo_start.2 P2) = [].
Proof.
  destruct (X1_new_game_deal nat cut_shuffle cut_shuffle_perm 7%nat) as (_ & _ & H).
  apply (H P2).
Defined.

(** X2 for the first card of player 1's first hand. *)
Lemma X2_cards_from_catalog_witness :
  heavy ∈ cards_of (deref demo_start.2 P1) /\
  heavy ∈ base_deck /\ isinstance_TroopCard heavy = true.
Proof.
  assert (heavy ∈ cards_of (deref demo_start.2 P1)) as M.
  { unfold cards_of. rewrite !elem_of_app. right. left.
    apply (list_elem_of_lookup_2 _ 0%nat). vm_compute. reflexivity. }
  split; [exact M|].
  destruct (X2_cards_from_catalog nat cut_shuffle cut_shuffle_perm
              demo_start P1 heavy (reach_new nat cut_shuffle 7%nat) M) as (H & _ & _).
  split; [exact H | reflexivity].
Defined.

(** X3 after the first deploy of a new game. *)
Lemma X3_discard_holds_troops_witness :
  exists w',
    run_op nat cut_shuffle (OpDeploy P1 0 HQ) demo_start = Some w' /\
    length (PlayerState.discard (deref w'.2 P1)) = 1%nat /\
    Forall (fun c => isinstance_TroopCard c = true) (PlayerState.discard (deref w'.2 P1)).
Proof.
  eexists. split; [vm_compute; reflexivity|]. split; [vm_compute; reflexivity|].
  apply (X3_discard_holds_troops nat cut_shuffle).
  apply (reach_op nat cut_shuffle (OpDeploy P1 0 HQ) demo_start);
    [apply reach_new | vm_compute; reflexivity].
Defined.

(** X4 on a hand that holds a non-troop card, under a deploy. *)
Lemma X4_other_cards_stay_in_hand_witness :
  exists w',
    run_op nat cut_shuffle (OpDeploy P1 0 HQ)
      (3%nat, mkGame 1 1 init_zones init_adj
                (PlayerState.mk 1 25 2 [] [scouts; booby; march] []) (PlayerState.new 2))
      = Some w' /\
    [booby; march] `prefix_of`
      filter (fun c => isinstance_TroopCard c = false) (PlayerState.hand (deref w'.2 P1)).
Proof.
  eexists. split; [vm_compute; reflexivity|].
  apply (X4_other_cards_stay_in_hand nat cut_shuffle (OpDeploy P1 0 HQ)
           (3%nat, mkGame 1 1 init_zones init_adj
                     (PlayerState.mk 1 25 2 [] [scouts; booby; march] [])
                     (PlayerState.new 2)) _ P1).
  vm_compute. reflexivity.
Defined.

(** X5: five cards asked for, three to be had. *)
Lemma X5_draw_count_witness :
  length (PlayerState.hand (deref (_draw nat cut_shuffle 1%nat reshuffle_demo P1 5).2 P1))
    = 4%nat /\
  (length (PlayerState.deck (deref (_draw nat cut_shuffle 1%nat reshuffle_demo P1 5).2 P1))
   + length (PlayerState.discard (deref (_draw nat cut_shuffle 1%nat reshuffle_demo P1 5).2 P1))
   = 0)%nat.
Proof.
  exact (X5_draw_count nat cut_shuffle cut_shuffle_perm 1%nat reshuffle_demo P1 5).
Defined.

(** X6: the start phase of player 2 after player 1 has deployed into HQ. *)
Lemma X6_start_phase_units_witness :
  exists g1 z,
    deploy_troop_from_hand demo_start.2 P1 0 HQ = Some (true, g1) /\
    zones g1 !! HQ = Some z /\
    exists z',
      zones (start_phase nat cut_shuffle 3%nat g1 P2).2 !! HQ = Some z' /\
      Zone.capacity z' = Zone.capacity z /\
      length (Zone.units z') = length (Zone.units z).
Proof.
  eexists. eexists. split; [vm_compute; reflexivity|].
  split; [vm_compute; reflexivity|].
  match goal with
  | |- context [start_phase nat cut_shuffle 3%nat ?g1 P2] =>
      destruct (X6_start_phase_units nat cut_shuffle 3%nat g1 P2 HQ) as [_ H]
  end.
  destruct (H _ ltac:(vm_compute; reflexivity)) as (z' & Hz & _ & Hc & Hl & _).
  exists z'. auto.
Defined.

(** X7 for the unit of the first deploy of a new game. *)
Lemma X7_units_as_deployed_witness :
  exists w' z u,
    run_op nat cut_shuffle (OpDeploy P1 0 HQ) demo_start = Some w' /\
    zones w'.2 !! HQ = Some z /\ u ∈ Zone.units z /\
    as_deployed HQ u /\ Unit.is_alive u = true.
Proof.
  eexists. eexists. eexists.
  split; [vm_compute; reflexivity|]. split; [vm_compute; reflexivity|].
  assert (forall A (x : A), x ∈ [x]) as M by (intros; apply list_elem_of_here).
  split; [cbn [Zone.units]; apply M|].
  eapply (X7_units_as_deployed nat cut_shuffle cut_shuffle_perm).
  - apply (reach_op nat cut_shuffle (OpDeploy P1 0 HQ) demo_start);
      [apply reach_new | vm_compute; reflexivity].
  - vm_compute. reflexivity.
  - cbn [Zone.units]. apply M.
Defined.

(** X8 on a new game. *)
Lemma X8_board_table_witness :
  (units_on_board demo_start.2 <= 17)%nat /\
  exists z, zones demo_start.2 !! RESERVE = Some z /\ Zone.capacity z = 4.
Proof.
  destruct (X8_board_table nat cut_shuffle cut_shuffle_perm demo_start
              (reach_new nat cut_shuffle 7%nat)) as [T B].
  split; [exact B|]. destruct (T RESERVE) as (z & Hz & _ & Hc). eauto.
Defined.

(** X9 under the first deploy of a new game. *)
Lemma X9_units_never_removed_witness :
  exists w',
    run_op nat cut_shuffle (OpDeploy P1 0 HQ) demo_start = Some w' /\
    (units_in demo_start.2 HQ <= units_in w'.2 HQ)%nat /\
    (units_on_board w'.2 <= units_on_board demo_start.2 + 1)%nat.
Proof.
  eexists. split; [vm_compute; reflexivity|].
  match goal with
  | |- context [units_in ?g HQ] =>
      lazymatch g with
      | demo_start.2 => fail
      | _ => destruct (X9_units_never_removed nat cut_shuffle (OpDeploy P1 0 HQ)
                         demo_start (demo_start.1, g)) as (H1 & H2 & _)
      end
  end.
  - vm_compute. reflexivity.
  - split; [apply (H1 HQ) | apply H2].
Defined.

(** X10 for the first deploy of a new game. *)
Lemma X10_deploy_frame_witness :
  exists g',
    deploy_troop_from_hand demo_start.2 P1 0 HQ = Some (true, g') /\
    PlayerState.cp (deref g' P1) = PlayerState.cp (deref demo_start.2 P1) /\
    turn g' = turn demo_start.2 /\
    (length (PlayerState.hand (deref g' P1))
       < length (PlayerState.hand (deref demo_start.2 P1)))%nat.
Proof.
  eexists. split; [vm_compute; reflexivity|].
  match goal with
  | |- context [turn ?g' = _] =>
      destruct (X10_deploy_frame demo_start.2 P1 0 HQ true g')
        as (H1 & _ & _ & _ & _ & H2 & _ & _ & _ & _ & _ & H3)
  end.
  - vm_compute. reflexivity.
  - split; [exact H1|]. split; [exact H2|]. apply H3. reflexivity.
Defined.

(** X11 for player 2 of a new game. *)
Lemma X11_player_lookup_witness :
  PlayerState.pid (deref demo_start.2 (player demo_start.2 2)) = 2 /\
  player demo_start.2 7 = P2.
Proof.
  destruct (X11_player_lookup nat cut_shuffle demo_start.2 2) as (_ & _ & _ & _ & H).
  destruct (X11_player_lookup nat cut_shuffle demo_start.2 7) as (_ & _ & _ & H7 & _).
  split; [|apply H7; discriminate].
  apply (H demo_start.1); [|right; reflexivity].
  pose proof (reach_new nat cut_shuffle 7%nat) as R.
  destruct demo_start. exact R.
Defined.

(** X12 on a new game, for HQ and RESERVE. *)
Lemma X12_adjacency_witness :
  adjacent (adj demo_start.2) HQ RESERVE /\ adjacent (adj demo_start.2) RESERVE HQ.
Proof.
  destruct (X12_adjacency nat cut_shuffle demo_start (reach_new nat cut_shuffle 7%nat))
    as (_ & _ & _ & S & _).
  assert (adjacent (adj demo_start.2) HQ RESERVE) as A.
  { exists [RESERVE]. split; [vm_compute; reflexivity | apply list_elem_of_here]. }
  split; [exact A | apply S, A].
Defined.


(** X14 on an input of four lines, for five turns. *)
Lemma X14_main_witness :
  (main nat cut_shuffle ascii_lib 5 7%nat [py "end"; py "d"; [178%N]; py "HQ"]).1
    = Raised EOFError \/
  (main nat cut_shuffle ascii_lib 5 7%nat [py "end"; py "d"; [178%N]; py "HQ"]).1
    = Raised ValueError.
Proof.
  destruct (X14_main_never_names_a_winner nat cut_shuffle ascii_lib 5 7%nat
              [py "end"; py "d"; [178%N]; py "HQ"]) as (_ & _ & _ & H).
  apply H. simpl. lia.
Defined.

(** X15, X16 and X17 after three turns. *)
Lemma X15_clock_after_turns_witness :
  exists w,
    main nat cut_shuffle ascii_lib 3 7%nat
      [py "d"; py " 1 "; py "hq"; py "END"; py "end"; py "x"; py "d"; py "2";
       py "Reserve"; py "end"]
      = (Running, w) /\
    active_pid w.1.2 = 2 /\ turn w.1.2 = 2.
Proof.
  eexists. split; [vm_compute; reflexivity|].
  eapply (X15_clock_after_turns nat cut_shuffle ascii_lib 3 7%nat
            [py "d"; py " 1 "; py "hq"; py "END"; py "end"; py "x"; py "d"; py "2";
             py "Reserve"; py "end"]).
  vm_compute. reflexivity.
Defined.

Lemma X16_command_points_witness :
  exists w,
    main nat cut_shuffle ascii_lib 3 7%nat
      [py "d"; py " 1 "; py "hq"; py "END"; py "end"; py "x"; py "d"; py "2";
       py "Reserve"; py "end"]
      = (Running, w) /\
    PlayerState.cp (p1 w.1.2) = 4 /\ PlayerState.cp (p2 w.1.2) = 2.
Proof.
  eexists. split; [vm_compute; reflexivity|].
  eapply (X16_command_points_after_turns nat cut_shuffle ascii_lib 3 7%nat
            [py "d"; py " 1 "; py "hq"; py "END"; py "end"; py "x"; py "d"; py "2";
             py "Reserve"; py "end"]).
  vm_compute. reflexivity.
Defined.

Lemma X17_front_stays_empty_witness :
  exists w,
    main nat cut_shuffle ascii_lib 3 7%nat
      [py "d"; py " 1 "; py "hq"; py "END"; py "end"; py "x"; py "d"; py "2";
       py "Reserve"; py "end"]
      = (Running, w) /\
    units_in w.1.2 LEFT = 0%nat /\ (units_on_board w.1.2 <= 6)%nat.
Proof.
  eexists. split; [vm_compute; reflexivity|].
  match goal with
  | |- units_in ?w.1.2 LEFT = _ /\ _ =>
      destruct (X17_front_stays_empty nat cut_shuffle ascii_lib 3 7%nat
                  [py "d"; py " 1 "; py "hq"; py "END"; py "end"; py "x"; py "d"; py "2";
                   py "Reserve"; py "end"] w) as [F B]
  end.
  - vm_compute. reflexivity.
  - split; [apply F; reflexivity | exact B].
Defined.

(** X18 on a new game. *)
Lemma X18_start_phase_draws_one_witness :
  exists cs,
    PlayerState.hand (deref (start_phase nat cut_shuffle demo_start.1 demo_start.2 P1).2 P1)
      = PlayerState.hand (deref demo_start.2 P1) ++ cs /\
    length cs = 1%nat.
Proof.
  destruct (X18_start_phase_draws_one nat cut_shuffle cut_shuffle_perm
              demo_start.1 demo_start.2 P1) as ((cs & H & L) & _).
  exists cs. split; [exact H | exact L].
Defined.

(** X19 on a new game. *)
Lemma X19_deck_composition_witness :
  length (filter (fun c => card_kind c = TROOP) (cards_of (deref demo_start.2 P2)))
    = 20%nat.
Proof.
  apply (X19_deck_composition nat cut_shuffle cut_shuffle_perm demo_start P2).
  apply reach_new.
Defined.
